(** * A shallow embedding of the single-quote JSON re-parser

    The repository holds one algorithm, [preParse], that rewrites a
    JSON-like text whose strings are delimited by apostrophes into
    candidate JSON texts and keeps the candidates that [JSON.parse]
    accepts.  This file embeds the iterative, list-based version
    (four positional arguments: text, [bruteForce], [heuristic],
    [TRY_HARD]) and states the properties of the specification about it;
    the older recursive version of the second source file is embedded in
    [Legacy].  The last part, from the decomposition into characters on,
    proves further properties of both versions, numbered X1 onwards.

    Conventions of the embedding:
    - a JavaScript string is the list of its UTF-16 code units ([N]);
    - a caller hook is a total function; the heuristic hook, which in the
      source mutates the guess it is handed, returns the guess as it
      left it together with the truthiness of its return value;
    - the two regular expressions of the source are run by a small
      backtracking matcher over the fragment they use;
    - [JSON.parse] succeeding is modelled by a recogniser of the JSON
      grammar (ECMA-404), since the source only observes whether it
      throws. *)

From Stdlib Require Import List Bool ZArith NArith Lia.
From Stdlib Require Strings.String Strings.Ascii.
Import ListNotations.
Import Strings.String.StringSyntax.

Local Open Scope string_scope.
Local Open Scope Z_scope.

(** ** JavaScript strings *)

Module JS.

(** A string value: its UTF-16 code units, in order. *)
Definition JSString := list N.

(** Literal text of the development, from a Rocq string of ASCII
    characters. *)
Fixpoint str (s : String.string) : JSString :=
  match s with
  | String.EmptyString => []
  | String.String a r => Ascii.N_of_ascii a :: str r
  end.

(** The code units the source names in its comparisons. *)
Definition cu_apostrophe : N := 39.   (* ' *)
Definition cu_quote      : N := 34.   (* double quote *)
Definition cu_backslash  : N := 92.
Definition cu_lbrace     : N := 123.
Definition cu_rbrace     : N := 125.
Definition cu_lbracket   : N := 91.
Definition cu_rbracket   : N := 93.
Definition cu_colon      : N := 58.
Definition cu_comma      : N := 44.

(** [===] on two strings. *)
Fixpoint eqb (a b : JSString) : bool :=
  match a, b with
  | [], [] => true
  | x :: a', y :: b' => N.eqb x y && eqb a' b'
  | _, _ => false
  end.

(** [s.length]. *)
Definition length (s : JSString) : Z := Z.of_nat (List.length s).

(** [s.slice(i)] and [s.slice(0, i)] for the non-negative indexes the
    source passes. *)
Definition sliceFrom (s : JSString) (i : Z) : JSString := skipn (Z.to_nat i) s.
Definition sliceTo (s : JSString) (i : Z) : JSString := firstn (Z.to_nat i) s.

(** Surrogate code units. *)
Definition isLeadSurrogate (c : N) : bool := (N.leb 55296 c && N.leb c 56319)%N.
Definition isTrailSurrogate (c : N) : bool := (N.leb 56320 c && N.leb c 57343)%N.

(** The string iterator ([for (const c of s)]): one element per code
    point; a lead surrogate followed by a trail surrogate is one element
    of two code units, every other code unit is an element of its own. *)
Fixpoint codePoints (s : JSString) : list JSString :=
  match s with
  | [] => []
  | c :: t =>
      match t with
      | d :: t' =>
          if isLeadSurrogate c && isTrailSurrogate d
          then [c; d] :: codePoints t'
          else [c] :: codePoints t
      | [] => [[c]]
      end
  end.

(** Truthiness of a string: the empty string is falsy. *)
Definition truthy (s : JSString) : bool :=
  match s with [] => false | _ => true end.

End JS.

Import JS.

(** ** The regular-expression fragment of the source

    Both patterns are a sequence of character classes, each taken once
    or under a greedy star; the first item of the second pattern is its
    capturing group.  [matchHere] is the backtracking match at one
    position and returns the text each item matched. *)

Module RegExp.

Inductive item : Type :=
| One  (cls : N -> bool)       (* [...]   *)
| Many (cls : N -> bool).      (* [...]*  greedy *)

Definition pattern := list item.

(** Greedy star of a class followed by the continuation [k]: the longest
    run first, shorter runs on failure of the continuation. *)
Fixpoint star (cls : N -> bool) (k : JSString -> option (list JSString))
         (s : JSString) : option (JSString * list JSString) :=
  match s with
  | c :: t =>
      if cls c then
        match star cls k t with
        | Some (m, ms) => Some (c :: m, ms)
        | None => option_map (pair []) (k s)
        end
      else option_map (pair []) (k s)
  | [] => option_map (pair []) (k [])
  end.

Fixpoint matchHere (p : pattern) (s : JSString) : option (list JSString) :=
  match p with
  | [] => Some []
  | One cls :: p' =>
      match s with
      | c :: t => if cls c then option_map (cons [c]) (matchHere p' t) else None
      | [] => None
      end
  | Many cls :: p' =>
      option_map (fun r => fst r :: snd r) (star cls (matchHere p') s)
  end.

(** [new RegExp("^...").test(s)]: a match at position 0. *)
Definition testAnchored (p : pattern) (s : JSString) : bool :=
  match matchHere p s with Some _ => true | None => false end.

(** [new RegExp("...").exec(s)]: the leftmost position with a match. *)
Fixpoint exec (p : pattern) (s : JSString) : option (list JSString) :=
  match matchHere p s with
  | Some ms => Some ms
  | None => match s with
            | [] => None
            | _ :: t => exec p t
            end
  end.

(** [\s]: white space and line terminators of ECMAScript. *)
Definition isSpace (c : N) : bool :=
  ((N.leb 9 c && N.leb c 13) || N.eqb c 32 || N.eqb c 160 || N.eqb c 5760
   || (N.leb 8192 c && N.leb c 8202) || N.eqb c 8232 || N.eqb c 8233
   || N.eqb c 8239 || N.eqb c 8287 || N.eqb c 12288 || N.eqb c 65279)%N.

(** [[^']] *)
Definition notApostrophe (c : N) : bool := negb (N.eqb c cu_apostrophe).
Definition isApostrophe (c : N) : bool := N.eqb c cu_apostrophe.

(** [[${possibleDelimiters}]]: membership in the class the delimiter
    text spells. *)
Definition inClass (members : list N) (c : N) : bool :=
  existsb (N.eqb c) members.

End RegExp.

(** ** [JSON.parse] as a recogniser

    The source calls [JSON.parse] inside [try]/[catch] and only uses
    whether it threw.  [JSON.parses s] is [true] when [s] is a text of
    the JSON grammar: a lexer over code units, then a push-down check of
    the token sequence. *)

Module JSON.

Inductive token : Type :=
| TLBrace | TRBrace | TLBracket | TRBracket | TColon | TComma
| TString | TNumber | TLiteral.

Inductive lexState : Type :=
| Idle
| InStr | StrEscape | StrHex (remaining : nat)
| NumMinus | NumZero | NumInt | NumDot | NumFrac | NumE | NumESign | NumExp
| Lit (rest : JSString).

Definition isDigit (c : N) : bool := (N.leb 48 c && N.leb c 57)%N.
Definition isDigit19 (c : N) : bool := (N.leb 49 c && N.leb c 57)%N.
Definition isHex (c : N) : bool :=
  (isDigit c || (N.leb 65 c && N.leb c 70) || (N.leb 97 c && N.leb c 102))%N.
Definition isWhite (c : N) : bool :=
  (N.eqb c 9 || N.eqb c 10 || N.eqb c 13 || N.eqb c 32)%N.
Definition isExpMark (c : N) : bool := (N.eqb c 69 || N.eqb c 101)%N.
Definition isSign (c : N) : bool := (N.eqb c 43 || N.eqb c 45)%N.
Definition isSimpleEscape (c : N) : bool :=
  existsb (N.eqb c) (cu_quote :: str "\/bfnrt").

(** What the lexer does with [c] when no token is in progress: the
    tokens it emits and the state it moves to. *)
Definition start (c : N) : option (list token * lexState) :=
  if isWhite c then Some ([], Idle)
  else if N.eqb c cu_lbrace then Some ([TLBrace], Idle)
  else if N.eqb c cu_rbrace then Some ([TRBrace], Idle)
  else if N.eqb c cu_lbracket then Some ([TLBracket], Idle)
  else if N.eqb c cu_rbracket then Some ([TRBracket], Idle)
  else if N.eqb c cu_colon then Some ([TColon], Idle)
  else if N.eqb c cu_comma then Some ([TComma], Idle)
  else if N.eqb c cu_quote then Some ([], InStr)
  else if N.eqb c 45 then Some ([], NumMinus)
  else if N.eqb c 48 then Some ([], NumZero)
  else if isDigit19 c then Some ([], NumInt)
  else if N.eqb c 116 then Some ([], Lit (str "rue"))
  else if N.eqb c 102 then Some ([], Lit (str "alse"))
  else if N.eqb c 110 then Some ([], Lit (str "ull"))
  else None.

(** A number that is complete ends at [c]; [c] is then read afresh. *)
Definition endNumber (c : N) : option (list token * lexState) :=
  option_map (fun r => (TNumber :: fst r, snd r)) (start c).

Definition lexStep (st : lexState) (c : N) : option (list token * lexState) :=
  match st with
  | Idle => start c
  | InStr =>
      if N.eqb c cu_quote then Some ([TString], Idle)
      else if N.eqb c cu_backslash then Some ([], StrEscape)
      else if N.ltb c 32 then None
      else Some ([], InStr)
  | StrEscape =>
      if isSimpleEscape c then Some ([], InStr)
      else if N.eqb c 117 then Some ([], StrHex 4)
      else None
  | StrHex n =>
      if isHex c then
        match n with
        | S (S m) => Some ([], StrHex (S m))
        | _ => Some ([], InStr)
        end
      else None
  | NumMinus =>
      if N.eqb c 48 then Some ([], NumZero)
      else if isDigit19 c then Some ([], NumInt)
      else None
  | NumZero =>
      if N.eqb c 46 then Some ([], NumDot)
      else if isExpMark c then Some ([], NumE)
      else endNumber c
  | NumInt =>
      if isDigit c then Some ([], NumInt)
      else if N.eqb c 46 then Some ([], NumDot)
      else if isExpMark c then Some ([], NumE)
      else endNumber c
  | NumDot => if isDigit c then Some ([], NumFrac) else None
  | NumFrac =>
      if isDigit c then Some ([], NumFrac)
      else if isExpMark c then Some ([], NumE)
      else endNumber c
  | NumE =>
      if isSign c then Some ([], NumESign)
      else if isDigit c then Some ([], NumExp)
      else None
  | NumESign => if isDigit c then Some ([], NumExp) else None
  | NumExp => if isDigit c then Some ([], NumExp) else endNumber c
  | Lit rest =>
      match rest with
      | x :: rest' =>
          if N.eqb c x
          then match rest' with
               | [] => Some ([TLiteral], Idle)
               | _ => Some ([], Lit rest')
               end
          else None
      | [] => None
      end
  end.

(** End of input: a complete number is a token, an open string, escape
    or literal is an error. *)
Definition lexEnd (st : lexState) : option (list token) :=
  match st with
  | Idle => Some []
  | NumZero | NumInt | NumFrac | NumExp => Some [TNumber]
  | _ => None
  end.

Fixpoint tokens (st : lexState) (s : JSString) : option (list token) :=
  match s with
  | [] => lexEnd st
  | c :: t =>
      match lexStep st c with
      | Some (emitted, st') => option_map (app emitted) (tokens st' t)
      | None => None
      end
  end.

(** The grammar over tokens, as a push-down automaton. *)
Inductive container : Type := InArray | InObject.

Inductive phase : Type :=
| WantValue          (* at the start, after a comma in an array, after a colon *)
| WantValueOrClose   (* after an opening bracket *)
| WantKeyOrClose     (* after an opening brace *)
| WantKey            (* after a comma in an object *)
| WantColon          (* after a key *)
| AfterValue.        (* after a complete value *)

Definition isScalar (t : token) : bool :=
  match t with TString | TNumber | TLiteral => true | _ => false end.

Definition valueStart (stack : list container) (t : token)
  : option (phase * list container) :=
  match t with
  | TString | TNumber | TLiteral => Some (AfterValue, stack)
  | TLBracket => Some (WantValueOrClose, InArray :: stack)
  | TLBrace => Some (WantKeyOrClose, InObject :: stack)
  | _ => None
  end.

Definition close (which : container) (stack : list container)
  : option (phase * list container) :=
  match which, stack with
  | InArray, InArray :: rest => Some (AfterValue, rest)
  | InObject, InObject :: rest => Some (AfterValue, rest)
  | _, _ => None
  end.

Definition parseStep (ph : phase) (stack : list container) (t : token)
  : option (phase * list container) :=
  match ph with
  | WantValue => valueStart stack t
  | WantValueOrClose =>
      match t with
      | TRBracket => close InArray stack
      | _ => valueStart stack t
      end
  | WantKeyOrClose =>
      match t with
      | TString => Some (WantColon, stack)
      | TRBrace => close InObject stack
      | _ => None
      end
  | WantKey =>
      match t with TString => Some (WantColon, stack) | _ => None end
  | WantColon =>
      match t with TColon => Some (WantValue, stack) | _ => None end
  | AfterValue =>
      match t with
      | TComma =>
          match stack with
          | InArray :: _ => Some (WantValue, stack)
          | InObject :: _ => Some (WantKey, stack)
          | [] => None
          end
      | TRBracket => close InArray stack
      | TRBrace => close InObject stack
      | _ => None
      end
  end.

Fixpoint accepts (ph : phase) (stack : list container) (ts : list token) : bool :=
  match ts with
  | [] => match ph, stack with AfterValue, [] => true | _, _ => false end
  | t :: ts' =>
      match parseStep ph stack t with
      | Some (ph', stack') => accepts ph' stack' ts'
      | None => false
      end
  end.

(** [JSON.parse(s)] returns rather than throws. *)
Definition parses (s : JSString) : bool :=
  match tokens Idle s with
  | Some ts => accepts WantValue [] ts
  | None => false
  end.

End JSON.

(** ** Parser guesses *)

(** [JSONType]: the string union of the source; [undefined] is [None]
    of [option JSONType]. *)
Inductive JSONType : Type :=
| array          (* "array" *)
| field          (* "field" *)
| object_value   (* "object-value" *)
| value.         (* "value" *)

Definition JSONType_eqb (a b : JSONType) : bool :=
  match a, b with
  | array, array | field, field | object_value, object_value | value, value => true
  | _, _ => false
  end.

(** [isJSONType === t] *)
Definition isType (tag : option JSONType) (t : JSONType) : bool :=
  match tag with Some u => JSONType_eqb u t | None => false end.

(** [Guess]: one parser attempt, with the flags of the default
    heuristics.  The counters are JavaScript numbers that only ever
    receive [++], [--] and small assignments: unbounded integers. *)
Record Guess : Type := mkGuess {
  string        : JSString;
  isString      : bool;
  isEscaped     : bool;
  isArray       : Z;
  isObject      : Z;
  isObjectField : bool;
  isObjectValue : bool;
  isJSONType    : option JSONType;
  aufoFilled    : Z
}.

(** Assignments to one property of a guess. *)
Definition set_string (s : JSString) (g : Guess) : Guess :=
  mkGuess s (isString g) (isEscaped g) (isArray g) (isObject g)
          (isObjectField g) (isObjectValue g) (isJSONType g) (aufoFilled g).
Definition set_isString (b : bool) (g : Guess) : Guess :=
  mkGuess (string g) b (isEscaped g) (isArray g) (isObject g)
          (isObjectField g) (isObjectValue g) (isJSONType g) (aufoFilled g).
Definition set_isEscaped (b : bool) (g : Guess) : Guess :=
  mkGuess (string g) (isString g) b (isArray g) (isObject g)
          (isObjectField g) (isObjectValue g) (isJSONType g) (aufoFilled g).
Definition set_isArray (n : Z) (g : Guess) : Guess :=
  mkGuess (string g) (isString g) (isEscaped g) n (isObject g)
          (isObjectField g) (isObjectValue g) (isJSONType g) (aufoFilled g).
Definition set_isObject (n : Z) (g : Guess) : Guess :=
  mkGuess (string g) (isString g) (isEscaped g) (isArray g) n
          (isObjectField g) (isObjectValue g) (isJSONType g) (aufoFilled g).
Definition set_isObjectField (b : bool) (g : Guess) : Guess :=
  mkGuess (string g) (isString g) (isEscaped g) (isArray g) (isObject g)
          b (isObjectValue g) (isJSONType g) (aufoFilled g).
Definition set_isObjectValue (b : bool) (g : Guess) : Guess :=
  mkGuess (string g) (isString g) (isEscaped g) (isArray g) (isObject g)
          (isObjectField g) b (isJSONType g) (aufoFilled g).
Definition set_isJSONType (t : option JSONType) (g : Guess) : Guess :=
  mkGuess (string g) (isString g) (isEscaped g) (isArray g) (isObject g)
          (isObjectField g) (isObjectValue g) t (aufoFilled g).
Definition set_aufoFilled (n : Z) (g : Guess) : Guess :=
  mkGuess (string g) (isString g) (isEscaped g) (isArray g) (isObject g)
          (isObjectField g) (isObjectValue g) (isJSONType g) n.

(** [g.string += s] *)
Definition append (s : JSString) (g : Guess) : Guess :=
  set_string (string g ++ s) g.

(** The guess that seeds [guesses]. *)
Definition initialGuess : Guess :=
  mkGuess [] false false 0 0 false false None 0.

(** [StringPosition]: what a hook is told about one single-quote. *)
Record StringPosition : Type := mkPosition {
  currentGuess    : Guess;
  followingString : JSString;
  precedingString : JSString;
  stringIndex     : Z;
  characterIndex  : Z
}.

(** [BruteForce]: receives a copy of the guess; its result is used for
    its truthiness. *)
Definition BruteForce := StringPosition -> bool.

(** [Heuristic]: receives the guess by reference.  The embedding hands
    back the guess as the hook left it, and whether the value it
    returned is truthy. *)
Definition Heuristic := StringPosition -> Guess * bool.

(** Truthiness of a number. *)
Definition nonzero (n : Z) : bool := negb (Z.eqb n 0).

(** The characters compared with [===]. *)
Definition APOSTROPHE : JSString := [cu_apostrophe].
Definition QUOTE : JSString := [cu_quote].

(** ** One character, one guess *)

Section PreParse.

Variable misformattedJSON : JSString.
Variable bruteForce : option BruteForce.
Variable heuristic : option Heuristic.
Variable TRY_HARD : bool.

(** The type-context tag after a closing brace, from the counters
    destructured at the top of the iteration. *)
Definition tagAfterBrace (isArray isObject : Z) : option JSONType :=
  if negb (nonzero isArray) && nonzero isObject then Some object_value
  else if negb (nonzero isObject) && nonzero isArray then Some array
  else if nonzero isArray && nonzero isObject then Some value
  else None.

(** The same after a closing bracket. *)
Definition tagAfterBracket (isArray isObject : Z) : option JSONType :=
  if negb (nonzero isObject) && nonzero isArray then Some array
  else if negb (nonzero isArray) && nonzero isObject then Some object_value
  else if nonzero isArray && nonzero isObject then Some value
  else None.

(** A character other than the single-quote, for a guess with no
    auto-fill pending.  [g] is the guess as the iteration finds it: the
    destructured constants are its properties. *)
Definition stepOther (character : JSString) (g : Guess) : Guess :=
  let g1 := append character g in
  if isString g then
    if JS.eqb character [cu_backslash]
    then set_isEscaped (negb (isEscaped g)) g1
    else g1
  else if JS.eqb character [cu_lbrace] then
    set_isObject (isObject g1 + 1)
      (set_isJSONType (Some field) (set_isObjectField true g1))
  else if JS.eqb character [cu_colon] then
    set_isObjectValue true
      (set_isJSONType (Some object_value) (set_isObjectField false g1))
  else if JS.eqb character [cu_rbrace] then
    set_isJSONType (tagAfterBrace (isArray g) (isObject g))
      (set_isObject (isObject g1 - 1) (set_isObjectValue false g1))
  else if JS.eqb character [cu_lbracket] then
    set_isJSONType (Some array) (set_isArray (isArray g1 + 1) g1)
  else if JS.eqb character [cu_rbracket] then
    set_isJSONType (tagAfterBracket (isArray g) (isObject g))
      (set_isArray (isArray g1 - 1) g1)
  else if isObjectValue g && isType (isJSONType g) object_value
          && JS.eqb character [cu_comma] then
    set_isJSONType (Some field)
      (set_isObjectField true (set_isObjectValue false g1))
  else g1.

(** [possibleDelimiters], as the members of the character class that
    the text spells inside [[...]] (the reverse solidus of the source
    escapes the closing bracket). *)
Definition possibleDelimiters (isJSONType : option JSONType)
           (isObjectField : bool) : list N :=
  if isType isJSONType array then [cu_comma; cu_rbracket]
  else if isType isJSONType object_value then [cu_comma; cu_rbrace]
  else if isType isJSONType field || isObjectField then [cu_colon]
  else if isType isJSONType value then [cu_comma; cu_rbrace; cu_rbracket]
  else [].

(** The pattern of [heuristicDelimiterFollowing], anchored at the start:
    white space, then one of the delimiters. *)
Definition delimiterFollowingPattern (delims : list N) : RegExp.pattern :=
  [RegExp.Many RegExp.isSpace; RegExp.One (RegExp.inClass delims)].

(** The pattern of [heuristicFindValids]: a captured run of characters
    other than the single-quote, a single-quote, white space, then one of
    the delimiters. *)
Definition findValidsPattern (delims : list N) : RegExp.pattern :=
  [RegExp.Many RegExp.notApostrophe; RegExp.One RegExp.isApostrophe;
   RegExp.Many RegExp.isSpace; RegExp.One (RegExp.inClass delims)].

(** [heuristicFindValids ? heuristicFindValids[1] : ""] *)
Definition regexpCapturingGroup (delims : list N) (stringIndex : Z) : JSString :=
  match RegExp.exec (findValidsPattern delims)
                    (sliceFrom misformattedJSON stringIndex) with
  | Some (group1 :: _) => group1
  | _ => []
  end.

(** The default heuristics at a single-quote.  [isString0], [isEscaped0],
    [isJSONType0] and [isObjectField0] are the constants destructured
    before the hooks ran; [g] is the guess as it is now.  The result is
    the guess and the guesses pushed, in push order. *)
Definition defaultHeuristics (stringIndex : Z) (followingString : JSString)
           (isString0 isEscaped0 : bool) (isJSONType0 : option JSONType)
           (isObjectField0 : bool) (g : Guess) : Guess * list Guess :=
  if isString0 then
    if isEscaped0 then
      (append APOSTROPHE (set_isEscaped false g), [])
    else
      let delims := possibleDelimiters isJSONType0 isObjectField0 in
      let heuristicDelimiterFollowing :=
        truthy delims
        && RegExp.testAnchored (delimiterFollowingPattern delims) followingString in
      let group := regexpCapturingGroup delims stringIndex in
      if truthy group then
        (set_isString false
           (set_aufoFilled (JS.length group + 1)
              (append (APOSTROPHE ++ group ++ QUOTE) g)),
         set_string (string g ++ QUOTE) (set_isString false g)
         :: (if TRY_HARD
             then [set_string (string g ++ APOSTROPHE) (set_isString true g)]
             else []))
      else if heuristicDelimiterFollowing then
        (set_isString false (append QUOTE g),
         if TRY_HARD
         then [set_string (string g ++ APOSTROPHE) (set_isString false g)]
         else [])
      else
        (append APOSTROPHE g,
         if TRY_HARD
         then [set_string (string g ++ APOSTROPHE) (set_isString false g)]
         else [])
  else
    (set_isString true (append QUOTE g), []).

(** [f?.(x)] with [f] possibly [undefined]. *)
Definition callBruteForce (p : StringPosition) : bool :=
  match bruteForce with Some f => f p | None => false end.

(** The object handed to the hooks at a single-quote. *)
Definition positionAt (characterIndex stringIndex : Z) (g : Guess)
  : StringPosition :=
  mkPosition g (sliceFrom misformattedJSON (stringIndex + 1))
             (sliceTo misformattedJSON stringIndex) stringIndex characterIndex.

(** A single-quote, for a guess with no auto-fill pending. *)
Definition stepApostrophe (characterIndex stringIndex : Z) (g : Guess)
  : Guess * list Guess :=
  let following := sliceFrom misformattedJSON (stringIndex + 1) in
  let position := positionAt characterIndex stringIndex g in
  if callBruteForce position then
    (append QUOTE g, [set_string (string g ++ APOSTROPHE) g])
  else
    match heuristic with
    | Some h =>
        let (g', result) := h position in
        if result then (g', [])
        else defaultHeuristics stringIndex following (isString g) (isEscaped g)
                               (isJSONType g) (isObjectField g) g'
    | None =>
        defaultHeuristics stringIndex following (isString g) (isEscaped g)
                          (isJSONType g) (isObjectField g) g
    end.

(** The body of the loop over [guesses], for the guess at [guessIndex]:
    the guess afterwards and the guesses it pushed. *)
Definition stepGuess (characterIndex stringIndex : Z) (character : JSString)
           (g : Guess) : Guess * list Guess :=
  if nonzero (aufoFilled g) then
    (set_aufoFilled (aufoFilled g - 1) g, [])
  else if negb (JS.eqb character APOSTROPHE) then
    (stepOther character g, [])
  else
    stepApostrophe characterIndex stringIndex g.

(** ** The two loops *)

(** The loop over [guesses] runs from the last index down to 0 and
    pushes at the end of the array, past the indexes still to visit: the
    guesses present at its start are each stepped once, and the pushed
    ones follow in the order of the pushes (highest index first). *)
Fixpoint forEachGuess (characterIndex stringIndex : Z) (character : JSString)
         (guesses : list Guess) : list Guess * list Guess :=
  match guesses with
  | [] => ([], [])
  | g :: rest =>
      let (rest', pushedEarlier) :=
        forEachGuess characterIndex stringIndex character rest in
      let (g', pushed) := stepGuess characterIndex stringIndex character g in
      (g' :: rest', pushedEarlier ++ pushed)
  end.

Definition stepCharacter (characterIndex stringIndex : Z) (character : JSString)
           (guesses : list Guess) : list Guess :=
  let (stepped, pushed) :=
    forEachGuess characterIndex stringIndex character guesses in
  stepped ++ pushed.

(** The loop over the code points, from [characterIndex], [stringIndex]. *)
Fixpoint scanFrom (characters : list JSString) (characterIndex stringIndex : Z)
         (guesses : list Guess) : list Guess :=
  match characters with
  | [] => guesses
  | character :: rest =>
      scanFrom rest (characterIndex + 1) (stringIndex + JS.length character)
               (stepCharacter characterIndex stringIndex character guesses)
  end.

(** [guesses] when the scan is over. *)
Definition scan : list Guess :=
  scanFrom (codePoints misformattedJSON) 0 0 [initialGuess].

(** [successes]: the strings of the guesses that [JSON.parse] accepts,
    in the order of [guesses]. *)
Definition collect (guesses : list Guess) : list JSString :=
  map string (filter (fun guess => JSON.parses (string guess)) guesses).

Definition preParse : list JSString := collect scan.

End PreParse.

(** ** The older, recursive version

    The second source file holds an earlier [preParse] with two
    arguments, the text and an options object.  It keeps one guess per
    call and forks by calling itself on the rest of the text; its
    heuristic hook returns the flag and the text to append; and the root
    call returns a bare string, an array, or nothing. *)

Module Legacy.

(** [StringPosition] of this version. *)
Record StringPosition : Type := mkPosition {
  followingString  : JSString;
  preceedingString : JSString;
  index            : Z;
  character        : Z;
  isString         : bool
}.

(** [EuristicResult]: the property [isString] and the property [quote]. *)
Record EuristicResult : Type := mkResult {
  result_isString : bool;
  quote           : JSString
}.

Definition BruteForce := StringPosition -> bool.
Definition Euristic := StringPosition -> EuristicResult.

(** The class of the four delimiters: comma, colon, closing bracket,
    closing brace. *)
Definition delimiterClass : list N :=
  [cu_comma; cu_colon; cu_rbracket; cu_rbrace].

(** Number of matches of the global pattern made of a run outside a
    class followed by one member of the class: every match ends at a
    member and the next one starts after it, so there is one match per
    member in the text. *)
Definition countMatches (cls : N -> bool) (s : JSString) : Z :=
  Z.of_nat (List.length (filter cls s)).

(** What the root call returns. *)
Inductive Returned : Type :=
| Undefined
| OneString (s : JSString)
| Strings (l : list JSString).

Section Walk.

Variable originalString : JSString.
Variable bruteForce : option BruteForce.
Variable euristic : option Euristic.

Definition callBruteForce (p : StringPosition) : bool :=
  match bruteForce with Some f => f p | None => false end.

(** The default heuristics of this version, inside a string: is the
    single-quote the end of the string? *)
Definition likelyEnd (followingString : JSString) : bool :=
  let euristicDelimiterFollowing :=
    RegExp.testAnchored
      [RegExp.Many RegExp.isSpace; RegExp.One (RegExp.inClass delimiterClass)]
      followingString in
  let delimitersAfter :=
    countMatches (RegExp.inClass delimiterClass) followingString in
  let quotesAfter := countMatches RegExp.isApostrophe followingString in
  let euristicIncompleteStringAfter := Z.eqb (quotesAfter mod 2) 0 in
  (Z.eqb (delimitersAfter mod 2) 1 && euristicDelimiterFollowing)
  || (euristicDelimiterFollowing && euristicIncompleteStringAfter)
  || Z.eqb quotesAfter 0.

(** One call: the loop over the characters of the text it was given,
    then the push of its guess.  [UTFStringIndex] and
    [UTFStringCodePoint] are the properties of its own options object;
    [guesses] is the array shared by all calls.  The recursive call
    receives the following string, whose characters are the rest of the
    characters of this call. *)
Fixpoint walk (characters : list JSString)
         (UTFStringIndex UTFStringCodePoint : Z)
         (currentGuess : JSString) (isString : bool)
         (guesses : list JSString) : list JSString :=
  match characters with
  | [] => guesses ++ [currentGuess]
  | UTFChar :: rest =>
      let UTFStringIndex := UTFStringIndex + JS.length UTFChar in
      let UTFStringCodePoint := UTFStringCodePoint + 1 in
      if negb (JS.eqb UTFChar [cu_apostrophe]) then
        walk rest UTFStringIndex UTFStringCodePoint
             (currentGuess ++ UTFChar) isString guesses
      else
        let followingString := concat rest in
        let position :=
          mkPosition followingString (sliceTo originalString UTFStringIndex)
                     UTFStringIndex UTFStringCodePoint isString in
        if callBruteForce position then
          let guesses :=
            walk rest UTFStringIndex UTFStringCodePoint
                 (currentGuess ++ UTFChar) isString guesses in
          walk rest UTFStringIndex UTFStringCodePoint
               (currentGuess ++ [cu_quote]) true guesses
        else
          match euristic with
          | Some f =>
              let euristicResult := f position in
              walk rest UTFStringIndex UTFStringCodePoint
                   (currentGuess ++ quote euristicResult)
                   (result_isString euristicResult) guesses
          | None =>
              if isString then
                if likelyEnd followingString then
                  walk rest UTFStringIndex UTFStringCodePoint
                       (currentGuess ++ [cu_quote]) false guesses
                else
                  walk rest UTFStringIndex UTFStringCodePoint
                       (currentGuess ++ UTFChar) isString guesses
              else
                walk rest UTFStringIndex UTFStringCodePoint
                     (currentGuess ++ [cu_quote]) true guesses
          end
  end.

End Walk.

(** The root call, with the options [bruteForce] and [euristic]. *)
Definition preParse (misformattedJSON : JSString)
           (bruteForce : option BruteForce) (euristic : option Euristic)
  : Returned :=
  let guesses :=
    walk misformattedJSON bruteForce euristic
         (codePoints misformattedJSON) 0 0 [] false [] in
  match filter JSON.parses guesses with
  | [] => Undefined
  | [success] => OneString success
  | successes => Strings successes
  end.

End Legacy.

(** ** Inputs and outputs named in the properties *)

(** The first example of the source. *)
Definition json1 : JSString := str "['Bob O'Rielly']".

(** Its intended repair: the outer single-quotes become double quotes. *)
Definition json1_repaired : JSString :=
  str "[" ++ QUOTE ++ str "Bob O'Rielly" ++ QUOTE ++ str "]".

(** A JSON text with an apostrophe inside a double-quoted string. *)
Definition quoted_its : JSString :=
  str "[" ++ QUOTE ++ str "it's" ++ QUOTE ++ str "]".

(** A JSON text without any apostrophe. *)
Definition quoted_a : JSString :=
  str "[" ++ QUOTE ++ str "a" ++ QUOTE ++ str "]".

(** Three single-quoted runs in an array. *)
Definition three_runs : JSString := str "['a'b'c']".

(** A heuristic hook that leaves the guess alone and returns nothing
    ([undefined], which is falsy). *)
Definition voidHeuristic : Heuristic := fun p => (currentGuess p, false).

(** A heuristic hook that leaves the guess alone and returns it (an
    object, which is truthy). *)
Definition keepHeuristic : Heuristic := fun p => (currentGuess p, true).

(** A brute-force hook that always asks for the fork. *)
Definition alwaysBruteForce : BruteForce := fun _ => true.

(** A guess in the middle of a string, just after a reverse solidus. *)
Definition escapedGuess : Guess :=
  mkGuess (str "[" ++ QUOTE ++ str "a\") true true 1 0 false false (Some array) 0.

(** An array of one empty single-quoted string, and its repair. *)
Definition empty_string_array : JSString := str "['']".
Definition empty_string_array_repaired : JSString :=
  str "[" ++ QUOTE ++ QUOTE ++ str "]".

(** A guess in the middle of a string of an array, no escape pending. *)
Definition openGuess : Guess :=
  mkGuess (str "[" ++ QUOTE ++ str "a") true false 1 0 false false (Some array) 0.

(** A text with a character outside the basic plane (U+1F600, two
    code units) between the second and third single-quotes. *)
Definition astral_run : JSString :=
  str "['a'" ++ [55357%N; 56832%N] ++ str "']".

(** A text whose string holds the escape of a line feed. *)
Definition escaped_n : JSString := str "['\n']".

(** The state of a guess that the structural rules write: the nesting
    counters, the mode flags and the type-context tag. *)
Definition structure (g : Guess)
  : Z * Z * bool * bool * option JSONType :=
  (isArray g, isObject g, isObjectField g, isObjectValue g, isJSONType g).

(** Number of closing braces among characters. *)
Fixpoint closingBraces (characters : list JSString) : Z :=
  match characters with
  | [] => 0
  | c :: rest =>
      (if JS.eqb c [cu_rbrace] then 1 else 0) + closingBraces rest
  end.

(** The guesses after the first [n] characters of the text. *)
Definition scanPrefix (misformattedJSON : JSString) (bruteForce : option BruteForce)
           (heuristic : option Heuristic) (TRY_HARD : bool) (n : nat)
  : list Guess :=
  scanFrom misformattedJSON bruteForce heuristic TRY_HARD
           (firstn n (codePoints misformattedJSON)) 0 0 [initialGuess].

(** A heuristic hook that does not make the auto-fill counter negative. *)
Definition keepsAufoFilled (heuristic : option Heuristic) : Prop :=
  match heuristic with
  | Some h => forall p, 0 <= aufoFilled (currentGuess p) ->
                        0 <= aufoFilled (fst (h p))
  | None => True
  end.

(** A heuristic hook that does not write the object counter. *)
Definition keepsIsObject (heuristic : option Heuristic) : Prop :=
  match heuristic with
  | Some h => forall p, isObject (fst (h p)) = isObject (currentGuess p)
  | None => True
  end.

(** ** Notions of the further properties *)

(** Number of characters that are the single-quote. *)
Fixpoint apostrophes (characters : list JSString) : nat :=
  match characters with
  | [] => 0
  | c :: rest => (if JS.eqb c APOSTROPHE then 1 else 0) + apostrophes rest
  end.

(** Number of characters equal to [c]. *)
Fixpoint occurrences (c : JSString) (characters : list JSString) : Z :=
  match characters with
  | [] => 0
  | x :: rest => (if JS.eqb x c then 1 else 0) + occurrences c rest
  end.

(** The texts obtained from the characters by keeping each single-quote
    or writing a double quote in its place. *)
Fixpoint variants (characters : list JSString) : list JSString :=
  match characters with
  | [] => [[]]
  | c :: rest =>
      if JS.eqb c APOSTROPHE
      then map (app QUOTE) (variants rest) ++ map (app APOSTROPHE) (variants rest)
      else map (app c) (variants rest)
  end.

(** A brute-force hook that asks for the fork at every single-quote. *)
Definition alwaysForks (f : BruteForce) : Prop := forall p, f p = true.

(** A heuristic hook that leaves the auto-fill counter at zero when it
    finds it at zero. *)
Definition keepsNoAutoFill (heuristic : option Heuristic) : Prop :=
  match heuristic with
  | Some h => forall p, aufoFilled (currentGuess p) = 0 ->
                        aufoFilled (fst (h p)) = 0
  | None => True
  end.

(** A heuristic hook that only appends to the string of the guess. *)
Definition onlyAppends (heuristic : option Heuristic) : Prop :=
  match heuristic with
  | Some h => forall p, exists suffix,
        string (fst (h p)) = string (currentGuess p) ++ suffix
  | None => True
  end.

(** The continuation of one guess through the characters, leaving aside
    the guesses it pushes on the way. *)
Fixpoint follow (misformattedJSON : JSString) (bruteForce : option BruteForce)
         (heuristic : option Heuristic) (TRY_HARD : bool)
         (characters : list JSString) (characterIndex stringIndex : Z)
         (g : Guess) : Guess :=
  match characters with
  | [] => g
  | character :: rest =>
      follow misformattedJSON bruteForce heuristic TRY_HARD rest
             (characterIndex + 1) (stringIndex + JS.length character)
             (fst (stepGuess misformattedJSON bruteForce heuristic TRY_HARD
                             characterIndex stringIndex character g))
  end.

(** The characters of a text without surrogate pair: its code units. *)
Definition units (s : JSString) : list JSString := map (fun u => [u]) s.

(** The largest number of guesses one guess can push at a single-quote. *)
Definition pushesAtMost (TRY_HARD : bool) : nat := if TRY_HARD then 2 else 1.

(** The guesses of the root call of the older version, in the order of
    the array. *)
Definition legacyGuesses (misformattedJSON : JSString)
           (bruteForce : option Legacy.BruteForce)
           (euristic : option Legacy.Euristic) : list JSString :=
  Legacy.walk misformattedJSON bruteForce euristic
              (codePoints misformattedJSON) 0 0 [] false [].

(** A brute-force hook of the older version that always asks for the
    fork. *)
Definition legacyAlwaysForks (f : Legacy.BruteForce) : Prop :=
  forall p, f p = true.

(** A brute-force hook that never asks for the fork, or none. *)
Definition declines (bruteForce : option BruteForce) : Prop :=
  match bruteForce with
  | Some f => forall p, f p = false
  | None => True
  end.

(** A heuristic hook that writes nothing and returns a falsy value, or
    none. *)
Definition writesNothing (heuristic : option Heuristic) : Prop :=
  match heuristic with
  | Some h => forall p, h p = (currentGuess p, false)
  | None => True
  end.

(** A heuristic hook that always returns a truthy value. *)
Definition alwaysTruthy (h : Heuristic) : Prop := forall p, snd (h p) = true.

(** Text literals in which the grave accent stands for the double
    quote. *)
Fixpoint strq (s : String.string) : JSString :=
  match s with
  | String.EmptyString => []
  | String.String a r =>
      (if N.eqb (Ascii.N_of_ascii a) 96 then cu_quote else Ascii.N_of_ascii a)
      :: strq r
  end.

(** The other examples of the source, and the one of the older file. *)
Definition json2 : JSString := strq "['Mr. O'McDonald, height 13',1\`']".
Definition json3 : JSString :=
  strq "[{'fullName':'Bob O'Rielly','height':'13',5\`'}]".
Definition json4 : JSString :=
  str "[[''''''''''''],[[''''''''],'[]','{}',',',':'],'''''''''''''']".
Definition json5 : JSString :=
  str "[{'techid':'0128','daPoints':3,'speedingPoints':3,'fleetInspectionPoints':3,'lofPoints':3,'missedTrgModules':null,'fullName':'FIRST LAST','safetyInspectPoints':3,'missedTrgPoints':3,'speeding_qty':null,'safetyTotalPoints':21,'atFaultPoints':3,'atFaultAccident':null,'region':'ABCD','supervisor':'LSAT FRIST','driverAlert':null,'status':'A'}]".
Definition json6 : JSString :=
  strq "[{'fullName':'Rob O'Rielly','height':'70.5\`'}]".
Definition json7 : JSString :=
  strq "[{'fullName':'Dob MacRielly','height':'13',5\`'}]".
Definition legacy_json3 : JSString :=
  strq "[{'name':'Bob O'Rielly','height':'13',5\`'}]".

(** Every single-quote of a text replaced by a double quote. *)
Definition requoteAll (s : JSString) : JSString :=
  map (fun u => if N.eqb u cu_apostrophe then cu_quote else u) s.

(** Case analysis on the next conditional of the goal. *)
Ltac break_if :=
  match goal with
  | |- context [if ?b then _ else _] => destruct b eqn:?
  end.

(** ** Strings and the iterator *)

Lemma eqb_eq (a b : JSString) : JS.eqb a b = true <-> a = b.
Proof.
  revert b; induction a as [|x a IH]; intros [|y b]; simpl; split;
    try congruence; try reflexivity.
  - intros H. apply andb_true_iff in H as [Hx Hab].
    apply N.eqb_eq in Hx. apply IH in Hab. congruence.
  - intros H. injection H as -> ->.
    rewrite N.eqb_refl. simpl. apply IH. reflexivity.
Qed.

Lemma eqb_refl (a : JSString) : JS.eqb a a = true.
Proof. apply eqb_eq. reflexivity. Qed.

(** Concatenating the characters gives the text back. *)
Lemma codePoints_concat (s : JSString) : concat (codePoints s) = s.
Proof.
  assert (H : forall n s, (List.length s <= n)%nat -> concat (codePoints s) = s).
  { clear s. induction n as [|n IH]; intros [|c [|d t]] Hlen; simpl in *;
      try reflexivity; try lia.
    destruct (isLeadSurrogate c && isTrailSurrogate d); simpl.
    - f_equal. f_equal. apply IH. lia.
    - f_equal. apply (IH (d :: t)). simpl. lia. }
  apply (H (List.length s)). lia.
Qed.

(** A text without the code unit [u] has no character equal to the
    one-unit string of [u]. *)
Lemma codePoints_without (u : N) (s : JSString) :
  ~ In u s ->
  Forall (fun c => JS.eqb c [u] = false) (codePoints s).
Proof.
  assert (H : forall n s, (List.length s <= n)%nat -> ~ In u s ->
              Forall (fun c => JS.eqb c [u] = false) (codePoints s)).
  { clear s. induction n as [|n IH]; intros [|c [|d t]] Hlen Hin; simpl in *;
      try constructor; try lia.
    - simpl. destruct (N.eqb_spec c u); [tauto | reflexivity].
    - constructor.
    - destruct (isLeadSurrogate c && isTrailSurrogate d).
      + constructor; [simpl; apply andb_false_r | apply IH; [lia | tauto]].
      + constructor.
        * simpl. destruct (N.eqb_spec c u); [tauto | reflexivity].
        * apply (IH (d :: t)); simpl; [lia | tauto]. }
  apply (H (List.length s)). lia.
Qed.

Lemma codePoints_no_apostrophe (s : JSString) :
  ~ In cu_apostrophe s ->
  Forall (fun c => JS.eqb c APOSTROPHE = false) (codePoints s).
Proof. apply codePoints_without. Qed.

(** ** The selection of the successes *)

Lemma collect_valid (guesses : list Guess) :
  Forall (fun r => JSON.parses r = true) (collect guesses).
Proof.
  unfold collect. induction guesses as [|g gs IH]; simpl.
  - constructor.
  - destruct (JSON.parses (string g)) eqn:Hg; simpl.
    + constructor; assumption.
    + assumption.
Qed.

Lemma collect_none (guesses : list Guess) :
  (forall g, In g guesses -> JSON.parses (string g) = false) ->
  collect guesses = [].
Proof.
  unfold collect. induction guesses as [|g gs IH]; simpl; intros H.
  - reflexivity.
  - rewrite (H g (or_introl eq_refl)). apply IH.
    intros g' Hin. apply H. right. exact Hin.
Qed.

(** C1.  For every text, every brute-force hook, every heuristic hook
    and either value of [TRY_HARD], [preParse] returns a list of strings
    (it is a total function into lists), every string of the list is
    accepted by [JSON.parse], and when no guess is accepted the list is
    empty. *)
Theorem preParse_returns_valid_strings
        (misformattedJSON : JSString) (bruteForce : option BruteForce)
        (heuristic : option Heuristic) (TRY_HARD : bool) :
  Forall (fun r => JSON.parses r = true)
         (preParse misformattedJSON bruteForce heuristic TRY_HARD)
  /\ ((forall g, In g (scan misformattedJSON bruteForce heuristic TRY_HARD) ->
                 JSON.parses (string g) = false) ->
      preParse misformattedJSON bruteForce heuristic TRY_HARD = []).
Proof.
  unfold preParse. split.
  - apply collect_valid.
  - apply collect_none.
Qed.

(** The text [['a'b'c']] has two guesses and neither parses: the result
    is the empty list. *)
Lemma preParse_returns_valid_strings_witness :
  Forall (fun r => JSON.parses r = true) (preParse three_runs None None false)
  /\ preParse three_runs None None false = [].
Proof.
  destruct (preParse_returns_valid_strings three_runs None None false)
    as [Hvalid Hnone].
  split; [exact Hvalid |].
  apply Hnone. intros g Hin.
  assert (Hall : forallb (fun x => negb (JSON.parses (string x)))
                         (scan three_runs None None false) = true)
    by (vm_compute; reflexivity).
  rewrite forallb_forall in Hall. apply negb_true_iff. apply Hall. exact Hin.
Defined.

(** C2.  For [json1] without hooks and without [TRY_HARD], the result
    contains [json1_repaired], the array of the string Bob O'Rielly
    between double quotes (it is the only element). *)
Theorem preParse_json1 :
  In json1_repaired (preParse json1 None None false)
  /\ preParse json1 None None false = [json1_repaired].
Proof.
  split.
  - vm_compute. left. reflexivity.
  - vm_compute. reflexivity.
Qed.

(** C10.  For the empty text, whatever the hooks, the scan ends with the
    single initial guess, whose string is empty; [JSON.parse] rejects the
    empty string; and [preParse] returns the empty list. *)
Theorem preParse_empty_text
        (bruteForce : option BruteForce) (heuristic : option Heuristic)
        (TRY_HARD : bool) :
  scan [] bruteForce heuristic TRY_HARD = [initialGuess]
  /\ string initialGuess = []
  /\ JSON.parses [] = false
  /\ preParse [] bruteForce heuristic TRY_HARD = [].
Proof.
  repeat split; reflexivity.
Qed.

(** ** Characters other than the single-quote *)

Lemma stepOther_string (character : JSString) (g : Guess) :
  string (stepOther character g) = string g ++ character.
Proof. unfold stepOther. repeat break_if; reflexivity. Qed.

Lemma stepOther_aufoFilled (character : JSString) (g : Guess) :
  aufoFilled (stepOther character g) = aufoFilled g.
Proof. unfold stepOther. repeat break_if; reflexivity. Qed.

Section Scan.

Variable misformattedJSON : JSString.
Variable bruteForce : option BruteForce.
Variable heuristic : option Heuristic.
Variable TRY_HARD : bool.

(** With no auto-fill pending, a character other than the single-quote
    is handled by [stepOther] and pushes nothing. *)
Lemma stepGuess_other (characterIndex stringIndex : Z) (character : JSString)
      (g : Guess) :
  aufoFilled g = 0 ->
  JS.eqb character APOSTROPHE = false ->
  stepGuess misformattedJSON bruteForce heuristic TRY_HARD
            characterIndex stringIndex character g
  = (stepOther character g, []).
Proof.
  intros Hfill Hchar. unfold stepGuess.
  rewrite Hfill, Hchar. reflexivity.
Qed.

(** A single guess scanning characters that are never the single-quote
    stays single and accumulates the characters. *)
Lemma scanFrom_without_apostrophe (characters : list JSString) :
  Forall (fun c => JS.eqb c APOSTROPHE = false) characters ->
  forall (characterIndex stringIndex : Z) (g : Guess),
    aufoFilled g = 0 ->
    exists g',
      scanFrom misformattedJSON bruteForce heuristic TRY_HARD
               characters characterIndex stringIndex [g] = [g']
      /\ string g' = string g ++ concat characters
      /\ aufoFilled g' = 0.
Proof.
  induction 1 as [|c cs Hc _ IH]; intros ci si g Hfill.
  - exists g. simpl. rewrite app_nil_r. auto.
  - destruct (IH (ci + 1) (si + JS.length c) (stepOther c g)) as (g' & Hrun & Hstr & Hf).
    { rewrite stepOther_aufoFilled. exact Hfill. }
    exists g'. split; [| split]; try assumption.
    + simpl. unfold stepCharacter. simpl.
      rewrite (stepGuess_other ci si c g Hfill Hc).
      exact Hrun.
    + rewrite Hstr, stepOther_string. simpl. rewrite app_assoc. reflexivity.
Qed.

End Scan.

(** C3, as it holds.  A text that [JSON.parse] accepts and that contains
    no apostrophe is returned alone and unchanged, whatever the hooks
    and [TRY_HARD]. *)
Theorem preParse_identity_without_apostrophe
        (misformattedJSON : JSString) (bruteForce : option BruteForce)
        (heuristic : option Heuristic) (TRY_HARD : bool) :
  JSON.parses misformattedJSON = true ->
  ~ In cu_apostrophe misformattedJSON ->
  preParse misformattedJSON bruteForce heuristic TRY_HARD = [misformattedJSON].
Proof.
  intros Hvalid Hno.
  destruct (scanFrom_without_apostrophe misformattedJSON bruteForce heuristic
              TRY_HARD (codePoints misformattedJSON)
              (codePoints_no_apostrophe misformattedJSON Hno) 0 0 initialGuess
              eq_refl) as (g & Hrun & Hstr & _).
  unfold preParse, scan. rewrite Hrun.
  simpl in Hstr. rewrite codePoints_concat in Hstr.
  unfold collect. simpl. rewrite Hstr, Hvalid. simpl. rewrite Hstr. reflexivity.
Qed.

(** [quoted_a] parses, has no apostrophe, and comes back alone. *)
Lemma preParse_identity_without_apostrophe_witness :
  preParse quoted_a None None false = [quoted_a].
Proof.
  apply preParse_identity_without_apostrophe.
  - vm_compute. reflexivity.
  - intros Hin. vm_compute in Hin. intuition discriminate.
Defined.

(** C3, as stated, fails on [quoted_its], the array of the one string
    it's written between double quotes: it is a JSON text, yet without
    hooks the apostrophe is taken for an opening delimiter and replaced
    by a double quote, the one guess does not parse, and the result is
    empty, not the text itself. *)
Lemma preParse_valid_json_with_apostrophe :
  JSON.parses quoted_its = true
  /\ preParse quoted_its None None false = []
  /\ preParse quoted_its None None false <> [quoted_its].
Proof.
  split; [vm_compute; reflexivity |].
  split; [vm_compute; reflexivity |].
  vm_compute. discriminate.
Qed.

(** ** The hooks at a single-quote *)

Lemma stepGuess_apostrophe
      (misformattedJSON : JSString) (bruteForce : option BruteForce)
      (heuristic : option Heuristic) (TRY_HARD : bool)
      (characterIndex stringIndex : Z) (g : Guess) :
  aufoFilled g = 0 ->
  stepGuess misformattedJSON bruteForce heuristic TRY_HARD
            characterIndex stringIndex APOSTROPHE g
  = stepApostrophe misformattedJSON bruteForce heuristic TRY_HARD
                   characterIndex stringIndex g.
Proof. intros Hfill. unfold stepGuess. rewrite Hfill. reflexivity. Qed.

(** C4, as it holds.  At a single-quote where the brute-force hook is
    absent or declines and a heuristic hook is supplied: when the hook
    returns a truthy value, the guess is left as the hook wrote it and
    nothing is pushed; when it returns a falsy value, the default
    heuristics run on the guess as the hook wrote it, with the flags read
    before the hook ran. *)
Theorem heuristic_result_decides
        (misformattedJSON : JSString) (bruteForce : option BruteForce)
        (h : Heuristic) (TRY_HARD : bool)
        (characterIndex stringIndex : Z) (g : Guess) :
  aufoFilled g = 0 ->
  callBruteForce bruteForce
    (positionAt misformattedJSON characterIndex stringIndex g) = false ->
  (snd (h (positionAt misformattedJSON characterIndex stringIndex g)) = true ->
   stepGuess misformattedJSON bruteForce (Some h) TRY_HARD
             characterIndex stringIndex APOSTROPHE g
   = (fst (h (positionAt misformattedJSON characterIndex stringIndex g)), []))
  /\
  (snd (h (positionAt misformattedJSON characterIndex stringIndex g)) = false ->
   stepGuess misformattedJSON bruteForce (Some h) TRY_HARD
             characterIndex stringIndex APOSTROPHE g
   = defaultHeuristics misformattedJSON TRY_HARD stringIndex
       (sliceFrom misformattedJSON (stringIndex + 1))
       (isString g) (isEscaped g) (isJSONType g) (isObjectField g)
       (fst (h (positionAt misformattedJSON characterIndex stringIndex g)))).
Proof.
  intros Hfill Hbrute.
  rewrite (stepGuess_apostrophe _ _ _ _ _ _ _ Hfill).
  unfold stepApostrophe. rewrite Hbrute.
  destruct (h (positionAt misformattedJSON characterIndex stringIndex g))
    as [g' result].
  simpl. split; intros ->; reflexivity.
Qed.

(** A hook that returns the guess it was given ends the matter; the
    same text with a hook that returns nothing gets the opening double
    quote of the default heuristics. *)
Lemma heuristic_result_decides_witness :
  stepGuess APOSTROPHE None (Some keepHeuristic) false 0 0 APOSTROPHE initialGuess
  = (initialGuess, [])
  /\ stepGuess APOSTROPHE None (Some voidHeuristic) false 0 0 APOSTROPHE initialGuess
     = (set_isString true (append QUOTE initialGuess), []).
Proof.
  split.
  - apply (heuristic_result_decides APOSTROPHE None keepHeuristic false 0 0
             initialGuess eq_refl eq_refl).
    reflexivity.
  - apply (heuristic_result_decides APOSTROPHE None voidHeuristic false 0 0
             initialGuess eq_refl eq_refl).
    reflexivity.
Defined.

(** C4, as stated, fails: with the hook [voidHeuristic], which writes
    nothing and returns nothing, the guess after the single-quote is not
    the guess the hook left: the engine has appended a double quote and
    set [isString].  On [empty_string_array] the result is its repair,
    although the hook never wrote a character. *)
Lemma heuristic_call_is_not_final :
  stepGuess APOSTROPHE None (Some voidHeuristic) false 0 0 APOSTROPHE initialGuess
  <> (fst (voidHeuristic (positionAt APOSTROPHE 0 0 initialGuess)), [])
  /\ preParse empty_string_array None (Some voidHeuristic) false
     = [empty_string_array_repaired].
Proof.
  split.
  - vm_compute. discriminate.
  - vm_compute. reflexivity.
Qed.

(** C5, as it holds.  When the brute-force hook returns true at a
    single-quote, one guess is pushed, equal to the current one but for
    the single-quote appended to its string, and the current guess gets a
    double quote appended to its string and no other change: [isString]
    keeps its value in both. *)
Theorem bruteForce_fork
        (misformattedJSON : JSString) (f : BruteForce)
        (heuristic : option Heuristic) (TRY_HARD : bool)
        (characterIndex stringIndex : Z) (g : Guess) :
  aufoFilled g = 0 ->
  f (positionAt misformattedJSON characterIndex stringIndex g) = true ->
  stepGuess misformattedJSON (Some f) heuristic TRY_HARD
            characterIndex stringIndex APOSTROPHE g
  = (set_string (string g ++ QUOTE) g, [set_string (string g ++ APOSTROPHE) g])
  /\ isString (fst (stepGuess misformattedJSON (Some f) heuristic TRY_HARD
                              characterIndex stringIndex APOSTROPHE g))
     = isString g.
Proof.
  intros Hfill Htrue.
  rewrite (stepGuess_apostrophe _ _ _ _ _ _ _ Hfill).
  unfold stepApostrophe, callBruteForce. rewrite Htrue.
  split; reflexivity.
Qed.

Lemma bruteForce_fork_witness :
  stepGuess APOSTROPHE (Some alwaysBruteForce) None false 0 0 APOSTROPHE openGuess
  = (set_string (string openGuess ++ QUOTE) openGuess,
     [set_string (string openGuess ++ APOSTROPHE) openGuess])
  /\ isString (fst (stepGuess APOSTROPHE (Some alwaysBruteForce) None false 0 0
                              APOSTROPHE openGuess))
     = isString openGuess.
Proof.
  apply (bruteForce_fork APOSTROPHE alwaysBruteForce None false 0 0 openGuess
           eq_refl eq_refl).
Defined.

(** C5, as stated, fails: the brute-force hook returns true for the
    initial guess, whose [isString] is false, and [isString] is still
    false afterwards; for a guess inside a string it is still true. *)
Lemma bruteForce_does_not_flip_isString :
  isString initialGuess = false
  /\ isString (fst (stepGuess APOSTROPHE (Some alwaysBruteForce) None false 0 0
                              APOSTROPHE initialGuess)) = false
  /\ isString openGuess = true
  /\ isString (fst (stepGuess APOSTROPHE (Some alwaysBruteForce) None false 0 0
                              APOSTROPHE openGuess)) = true.
Proof. repeat split. Qed.

(** ** Inside a string *)

(** C6, as it holds.  For a guess inside a string with no auto-fill
    pending: a character other than the single-quote is appended, pushes
    nothing, toggles [isEscaped] when it is the reverse solidus and
    leaves [isEscaped] as it is otherwise (set stays set), and changes
    neither [isString] nor the structural state; and, without hooks, a
    single-quote met while [isEscaped] is set is appended as it is,
    clears [isEscaped] and changes nothing else. *)
Theorem inString_step
        (misformattedJSON : JSString) (bruteForce : option BruteForce)
        (heuristic : option Heuristic) (TRY_HARD : bool)
        (characterIndex stringIndex : Z) (character : JSString) (g : Guess) :
  aufoFilled g = 0 ->
  isString g = true ->
  (JS.eqb character APOSTROPHE = false ->
   stepGuess misformattedJSON bruteForce heuristic TRY_HARD
             characterIndex stringIndex character g
   = (stepOther character g, [])
   /\ string (stepOther character g) = string g ++ character
   /\ isEscaped (stepOther character g)
      = (if JS.eqb character [cu_backslash]
         then negb (isEscaped g) else isEscaped g)
   /\ isString (stepOther character g) = true
   /\ aufoFilled (stepOther character g) = 0
   /\ structure (stepOther character g) = structure g)
  /\
  (isEscaped g = true ->
   stepGuess misformattedJSON None None TRY_HARD
             characterIndex stringIndex APOSTROPHE g
   = (append APOSTROPHE (set_isEscaped false g), [])).
Proof.
  intros Hfill Hstr. split.
  - intros Hchar. split.
    { apply stepGuess_other; assumption. }
    unfold stepOther, structure. rewrite Hstr.
    destruct (JS.eqb character [cu_backslash]); simpl; auto.
  - intros Hesc.
    rewrite (stepGuess_apostrophe _ _ _ _ _ _ _ Hfill).
    unfold stepApostrophe, callBruteForce, defaultHeuristics.
    rewrite Hstr, Hesc. reflexivity.
Qed.

(** On [escapedGuess]: the letter n is appended and [isEscaped] stays
    set; a single-quote is appended and clears it. *)
Lemma inString_step_witness :
  (stepGuess [] None None false 0 0 (str "n") escapedGuess
   = (stepOther (str "n") escapedGuess, [])
   /\ string (stepOther (str "n") escapedGuess) = string escapedGuess ++ str "n"
   /\ isEscaped (stepOther (str "n") escapedGuess) = true
   /\ isString (stepOther (str "n") escapedGuess) = true
   /\ aufoFilled (stepOther (str "n") escapedGuess) = 0
   /\ structure (stepOther (str "n") escapedGuess) = structure escapedGuess)
  /\ stepGuess [] None None false 0 0 APOSTROPHE escapedGuess
     = (append APOSTROPHE (set_isEscaped false escapedGuess), []).
Proof.
  destruct (inString_step [] None None false 0 0 (str "n") escapedGuess
              eq_refl eq_refl) as [Hother Hquote].
  split.
  - apply Hother. reflexivity.
  - apply Hquote. reflexivity.
Defined.

(** C6, as stated, fails: [escapedGuess] is inside a string with
    [isEscaped] set; after the letter n, [isEscaped] is still set.  On
    [escaped_n] the single-quote after the escape of the line feed is
    therefore kept as escaped content, the string is never closed, and
    nothing parses. *)
Lemma escape_not_cleared_by_ordinary_character :
  isString escapedGuess = true
  /\ isEscaped escapedGuess = true
  /\ isEscaped (fst (stepGuess [] None None false 0 0 (str "n") escapedGuess))
     = true
  /\ map string (scan escaped_n None None false)
     = [str "[" ++ QUOTE ++ str "\n']"]
  /\ preParse escaped_n None None false = [].
Proof.
  repeat split; vm_compute; reflexivity.
Qed.

(** ** Closing braces and brackets *)

(** Outside a string, the tag after a closing bracket is computed from
    the counters as they were before the bracket was counted, while the
    array counter itself is decremented; likewise for a closing brace. *)
Lemma closing_tag_from_counters_before (g : Guess) :
  isString g = false ->
  (isJSONType (stepOther [cu_rbracket] g)
   = tagAfterBracket (isArray g) (isObject g)
   /\ isArray (stepOther [cu_rbracket] g) = isArray g - 1
   /\ isObject (stepOther [cu_rbracket] g) = isObject g)
  /\
  (isJSONType (stepOther [cu_rbrace] g)
   = tagAfterBrace (isArray g) (isObject g)
   /\ isObject (stepOther [cu_rbrace] g) = isObject g - 1
   /\ isArray (stepOther [cu_rbrace] g) = isArray g).
Proof.
  intros Hstr. unfold stepOther. rewrite Hstr. simpl. auto.
Qed.

(** C7, on the code.  After the text of an empty array, the one guess
    has both counters at zero and yet the tag of an array, not
    [undefined]; after the text of an empty object, both counters are at
    zero and the tag is that of an object value; after the first three
    characters of an array holding an empty object, the guess is inside
    the array only and the tag is that of a value, not of an array. *)
Theorem closing_tag_is_stale :
  scan (str "[]") None None false
  = [mkGuess (str "[]") false false 0 0 false false (Some array) 0]
  /\ scan (str "{}") None None false
     = [mkGuess (str "{}") false false 0 0 true false (Some object_value) 0]
  /\ scanPrefix (str "[{}]") None None false 3
     = [mkGuess (str "[{}") false false 1 0 true false (Some value) 0].
Proof.
  repeat split; vm_compute; reflexivity.
Qed.

(** ** Auto-fill *)

(** C8, on the code.  On [three_runs], after the second single-quote
    (four characters read) the first guess has had the text c and a
    double quote appended after the single-quote, and its counter is 2;
    the two characters the counter will skip are b and a single-quote.
    The guess ends as a text in which b is lost and c occurs twice, and
    nothing parses. *)
Theorem autofill_span_is_not_the_skipped_text :
  map (fun g => (string g, aufoFilled g))
      (scanPrefix three_runs None None false 4)
  = [(str "[" ++ QUOTE ++ str "a'c" ++ QUOTE, 2);
     (str "[" ++ QUOTE ++ str "a" ++ QUOTE, 0)]
  /\ firstn 2 (skipn 4 (codePoints three_runs)) = [str "b"; APOSTROPHE]
  /\ map string (scan three_runs None None false)
     = [str "[" ++ QUOTE ++ str "a'c" ++ QUOTE ++ str "c" ++ QUOTE ++ str "]";
        str "[" ++ QUOTE ++ str "a" ++ QUOTE ++ str "b" ++ QUOTE ++ str "c"
            ++ QUOTE ++ str "]"]
  /\ preParse three_runs None None false = [].
Proof.
  repeat split; vm_compute; reflexivity.
Qed.

(** The counter is the length of the captured text in code units plus
    one, and it is decremented once per character: on [astral_run] the
    captured text is one character of two code units, the counter is 3,
    and the closing bracket is skipped with the two characters that were
    folded. *)
Lemma autofill_counts_code_units :
  map (fun g => (string g, aufoFilled g))
      (scanPrefix astral_run None None false 4)
  = [(str "[" ++ QUOTE ++ str "a'" ++ [55357%N; 56832%N] ++ QUOTE, 3);
     (str "[" ++ QUOTE ++ str "a" ++ QUOTE, 0)]
  /\ skipn 4 (codePoints astral_run)
     = [[55357%N; 56832%N]; APOSTROPHE; str "]"]
  /\ map string (scan astral_run None None false)
     = [str "[" ++ QUOTE ++ str "a'" ++ [55357%N; 56832%N] ++ QUOTE;
        str "[" ++ QUOTE ++ str "a" ++ QUOTE ++ [55357%N; 56832%N] ++ QUOTE
            ++ str "]"].
Proof.
  repeat split; vm_compute; reflexivity.
Qed.

(** ** Invariants of the scan *)

Section Invariants.

Variable misformattedJSON : JSString.
Variable bruteForce : option BruteForce.
Variable heuristic : option Heuristic.
Variable TRY_HARD : bool.

(** What one step of every guess establishes from what held before. *)
Lemma stepCharacter_Forall (P Q : Guess -> Prop)
      (characterIndex stringIndex : Z) (character : JSString) :
  (forall g, P g ->
     Q (fst (stepGuess misformattedJSON bruteForce heuristic TRY_HARD
                       characterIndex stringIndex character g))
     /\ Forall Q (snd (stepGuess misformattedJSON bruteForce heuristic TRY_HARD
                                 characterIndex stringIndex character g))) ->
  forall guesses,
    Forall P guesses ->
    Forall Q (stepCharacter misformattedJSON bruteForce heuristic TRY_HARD
                            characterIndex stringIndex character guesses).
Proof.
  intros Hstep guesses Hall. unfold stepCharacter.
  assert (H : Forall Q (fst (forEachGuess misformattedJSON bruteForce heuristic
                               TRY_HARD characterIndex stringIndex character guesses))
              /\ Forall Q (snd (forEachGuess misformattedJSON bruteForce heuristic
                                  TRY_HARD characterIndex stringIndex character
                                  guesses))).
  { induction Hall as [|g gs Hg _ IH]; simpl.
    - split; constructor.
    - destruct (forEachGuess misformattedJSON bruteForce heuristic TRY_HARD
                  characterIndex stringIndex character gs) as [rest' earlier].
      destruct (Hstep g Hg) as [Hfst Hsnd].
      destruct (stepGuess misformattedJSON bruteForce heuristic TRY_HARD
                  characterIndex stringIndex character g) as [g' pushed].
      simpl in *. destruct IH as [IH1 IH2]. split.
      + constructor; assumption.
      + apply Forall_app. split; assumption. }
  destruct (forEachGuess misformattedJSON bruteForce heuristic TRY_HARD
              characterIndex stringIndex character guesses) as [stepped pushed].
  simpl in H. apply Forall_app. exact H.
Qed.

(** The default heuristics never write the object counter, neither in
    the guess they continue nor in the guesses they push. *)
Lemma defaultHeuristics_isObject
      (stringIndex : Z) (following : JSString) (isString0 isEscaped0 : bool)
      (isJSONType0 : option JSONType) (isObjectField0 : bool) (g : Guess) :
  isObject (fst (defaultHeuristics misformattedJSON TRY_HARD stringIndex following
                   isString0 isEscaped0 isJSONType0 isObjectField0 g))
  = isObject g
  /\ Forall (fun x => isObject x = isObject g)
            (snd (defaultHeuristics misformattedJSON TRY_HARD stringIndex following
                    isString0 isEscaped0 isJSONType0 isObjectField0 g)).
Proof.
  unfold defaultHeuristics. cbv zeta.
  repeat break_if; simpl; split; repeat constructor.
Qed.

Lemma stepOther_isObject (character : JSString) (g : Guess) :
  isObject g - closingBraces [character] <= isObject (stepOther character g).
Proof.
  unfold stepOther. cbn [closingBraces].
  repeat break_if; simpl; lia.
Qed.

(** One step lowers the object counter by at most the number of closing
    braces read (0 or 1), and the guesses pushed start from the counter
    of the guess that pushed them. *)
Lemma stepGuess_isObject
      (characterIndex stringIndex : Z) (character : JSString) (g : Guess) :
  keepsIsObject heuristic ->
  isObject g - closingBraces [character]
  <= isObject (fst (stepGuess misformattedJSON bruteForce heuristic TRY_HARD
                              characterIndex stringIndex character g))
  /\ Forall (fun x => isObject g - closingBraces [character] <= isObject x)
            (snd (stepGuess misformattedJSON bruteForce heuristic TRY_HARD
                            characterIndex stringIndex character g)).
Proof.
  intros Hkeeps.
  assert (Hc : 0 <= closingBraces [character]).
  { simpl. destruct (JS.eqb character [cu_rbrace]); lia. }
  pose proof (stepOther_isObject character g) as Hother.
  remember (closingBraces [character]) as k eqn:Hk. clear Hk.
  unfold stepGuess.
  destruct (nonzero (aufoFilled g)); [simpl; split; [lia | constructor] |].
  destruct (negb (JS.eqb character APOSTROPHE)).
  { simpl. split; [exact Hother | constructor]. }
  unfold stepApostrophe.
  destruct (callBruteForce bruteForce
              (positionAt misformattedJSON characterIndex stringIndex g)).
  { simpl. split; [lia | repeat constructor; simpl; lia]. }
  destruct heuristic as [h|].
  - simpl in Hkeeps.
    specialize (Hkeeps (positionAt misformattedJSON characterIndex stringIndex g)).
    destruct (h (positionAt misformattedJSON characterIndex stringIndex g))
      as [g' result].
    simpl in Hkeeps. destruct result.
    + simpl. split; [lia | constructor].
    + destruct (defaultHeuristics_isObject stringIndex
                  (sliceFrom misformattedJSON (stringIndex + 1))
                  (isString g) (isEscaped g) (isJSONType g) (isObjectField g) g')
        as [H1 H2].
      split; [lia |].
      eapply Forall_impl; [| exact H2]. simpl. intros x Hx. lia.
  - destruct (defaultHeuristics_isObject stringIndex
                (sliceFrom misformattedJSON (stringIndex + 1))
                (isString g) (isEscaped g) (isJSONType g) (isObjectField g) g)
      as [H1 H2].
    split; [lia |].
    eapply Forall_impl; [| exact H2]. simpl. intros x Hx. lia.
Qed.

Lemma closingBraces_app (a b : list JSString) :
  closingBraces (a ++ b) = closingBraces a + closingBraces b.
Proof. induction a as [|c a IH]; simpl; [reflexivity | rewrite IH; lia]. Qed.

(** The object counter of every guess is bounded below through the whole
    scan by what it was bounded by minus the closing braces read. *)
Lemma scanFrom_isObject (characters : list JSString) :
  keepsIsObject heuristic ->
  forall (characterIndex stringIndex lower : Z) (guesses : list Guess),
    Forall (fun g => lower <= isObject g) guesses ->
    Forall (fun g => lower - closingBraces characters <= isObject g)
           (scanFrom misformattedJSON bruteForce heuristic TRY_HARD
                     characters characterIndex stringIndex guesses).
Proof.
  intros Hkeeps.
  induction characters as [|c cs IH]; intros ci si lower guesses Hall; simpl.
  - eapply Forall_impl; [| exact Hall]. simpl. intros g Hg. lia.
  - eapply Forall_impl;
      [| apply (IH (ci + 1) (si + JS.length c) (lower - closingBraces [c]))].
    { simpl. intros g. destruct (JS.eqb c [cu_rbrace]); lia. }
    apply (stepCharacter_Forall (fun g => lower <= isObject g)); [| exact Hall].
    intros g Hg.
    destruct (stepGuess_isObject ci si c g Hkeeps) as [H1 H2].
    split; [lia |].
    eapply Forall_impl; [| exact H2]. simpl. intros x Hx. lia.
Qed.

End Invariants.

Lemma closingBraces_nonneg (characters : list JSString) :
  0 <= closingBraces characters.
Proof.
  induction characters as [|c cs IH]; simpl; [lia |].
  destruct (JS.eqb c [cu_rbrace]); lia.
Qed.

Lemma closingBraces_none (characters : list JSString) :
  Forall (fun c => JS.eqb c [cu_rbrace] = false) characters ->
  closingBraces characters = 0.
Proof.
  induction 1 as [|c cs Hc _ IH]; simpl; [reflexivity |].
  rewrite Hc, IH. reflexivity.
Qed.

Lemma closingBraces_firstn (n : nat) (characters : list JSString) :
  closingBraces (firstn n characters) <= closingBraces characters.
Proof.
  rewrite <- (firstn_skipn n characters) at 2.
  rewrite closingBraces_app.
  pose proof (closingBraces_nonneg (skipn n characters)). lia.
Qed.

(** C9, as it holds.  With a heuristic hook that does not write the
    object counter (or none), at every point of the scan the object
    counter of every guess is at least minus the number of closing braces
    among the characters read so far; in particular it is never negative
    on a text without closing brace. *)
Theorem isObject_lower_bound
        (misformattedJSON : JSString) (bruteForce : option BruteForce)
        (heuristic : option Heuristic) (TRY_HARD : bool) (n : nat) (g : Guess) :
  keepsIsObject heuristic ->
  In g (scanPrefix misformattedJSON bruteForce heuristic TRY_HARD n) ->
  - closingBraces (firstn n (codePoints misformattedJSON)) <= isObject g
  /\ (~ In cu_rbrace misformattedJSON -> 0 <= isObject g).
Proof.
  intros Hkeeps Hin.
  assert (Hbound :
            - closingBraces (firstn n (codePoints misformattedJSON)) <= isObject g).
  { pose proof (scanFrom_isObject misformattedJSON bruteForce heuristic TRY_HARD
                  (firstn n (codePoints misformattedJSON)) Hkeeps 0 0 0
                  [initialGuess]) as Hall.
    assert (Hinit : Forall (fun x => 0 <= isObject x) [initialGuess])
      by (constructor; [simpl; lia | constructor]).
    specialize (Hall Hinit). rewrite Forall_forall in Hall.
    specialize (Hall g Hin). simpl in Hall. lia. }
  split; [exact Hbound |].
  intros Hno.
  pose proof (closingBraces_firstn n (codePoints misformattedJSON)) as Hle.
  rewrite (closingBraces_none _ (codePoints_without cu_rbrace _ Hno)) in Hle.
  lia.
Qed.

(** C9, as stated, fails: on the text of one closing brace the one guess
    ends with the object counter at -1. *)
Lemma isObject_negative_after_closing_brace :
  scan (str "}") None None false
  = [mkGuess (str "}") false false 0 (-1) false false None 0]
  /\ exists g, In g (scan (str "}") None None false) /\ isObject g < 0.
Proof.
  split; [vm_compute; reflexivity |].
  exists (mkGuess (str "}") false false 0 (-1) false false None 0).
  split; [left; vm_compute; reflexivity | simpl; lia].
Qed.

(** After an opening brace, a single-quote that [keepHeuristic] settles
    by writing nothing, and a letter, the object counter is 1. *)
Lemma isObject_lower_bound_witness :
  - closingBraces (firstn 3 (codePoints (str "{'a")))
  <= isObject (mkGuess (str "{a") false false 0 1 true false (Some field) 0)
  /\ 0 <= isObject (mkGuess (str "{a") false false 0 1 true false (Some field) 0).
Proof.
  assert (Hkeeps : keepsIsObject (Some keepHeuristic))
    by (intros p; reflexivity).
  assert (Hin : In (mkGuess (str "{a") false false 0 1 true false (Some field) 0)
                   (scanPrefix (str "{'a") None (Some keepHeuristic) false 3))
    by (vm_compute; left; reflexivity).
  destruct (isObject_lower_bound (str "{'a") None (Some keepHeuristic) false 3
              _ Hkeeps Hin) as [Hbound Hnonneg].
  split; [exact Hbound |].
  apply Hnonneg. intros H. vm_compute in H. intuition discriminate.
Defined.

(** ** The auto-fill counter *)

(** A guess with a non-zero counter is not touched but for the counter,
    which loses one, whatever the character and the hooks. *)
Lemma stepGuess_skips
      (misformattedJSON : JSString) (bruteForce : option BruteForce)
      (heuristic : option Heuristic) (TRY_HARD : bool)
      (characterIndex stringIndex : Z) (character : JSString) (g : Guess) :
  aufoFilled g <> 0 ->
  stepGuess misformattedJSON bruteForce heuristic TRY_HARD
            characterIndex stringIndex character g
  = (set_aufoFilled (aufoFilled g - 1) g, []).
Proof.
  intros Hfill. unfold stepGuess, nonzero.
  destruct (Z.eqb_spec (aufoFilled g) 0); [contradiction | reflexivity].
Qed.

Lemma defaultHeuristics_aufoFilled
      (misformattedJSON : JSString) (TRY_HARD : bool)
      (stringIndex : Z) (following : JSString) (isString0 isEscaped0 : bool)
      (isJSONType0 : option JSONType) (isObjectField0 : bool) (g : Guess) :
  0 <= aufoFilled g ->
  0 <= aufoFilled (fst (defaultHeuristics misformattedJSON TRY_HARD stringIndex
                          following isString0 isEscaped0 isJSONType0
                          isObjectField0 g))
  /\ Forall (fun x => 0 <= aufoFilled x)
            (snd (defaultHeuristics misformattedJSON TRY_HARD stringIndex
                    following isString0 isEscaped0 isJSONType0
                    isObjectField0 g)).
Proof.
  intros Hg. unfold defaultHeuristics, JS.length. cbv zeta.
  repeat break_if; simpl; split; repeat constructor; simpl; lia.
Qed.

(** With a heuristic hook that does not make it negative (or none), the
    auto-fill counter of every guess is never negative during the
    scan. *)
Lemma aufoFilled_nonnegative
      (misformattedJSON : JSString) (bruteForce : option BruteForce)
      (heuristic : option Heuristic) (TRY_HARD : bool) :
  keepsAufoFilled heuristic ->
  forall (characters : list JSString) (characterIndex stringIndex : Z)
         (guesses : list Guess),
    Forall (fun g => 0 <= aufoFilled g) guesses ->
    Forall (fun g => 0 <= aufoFilled g)
           (scanFrom misformattedJSON bruteForce heuristic TRY_HARD
                     characters characterIndex stringIndex guesses).
Proof.
  intros Hkeeps. induction characters as [|c cs IH];
    intros ci si guesses Hall; simpl; [exact Hall |].
  apply IH.
  apply (stepCharacter_Forall _ _ _ _ (fun g => 0 <= aufoFilled g));
    [| exact Hall].
  intros g Hg. unfold stepGuess, nonzero.
  destruct (Z.eqb_spec (aufoFilled g) 0) as [Hz | Hnz]; simpl.
  2: { split; [lia | constructor]. }
  destruct (negb (JS.eqb c APOSTROPHE)); simpl.
  { rewrite stepOther_aufoFilled. split; [lia | constructor]. }
  unfold stepApostrophe.
  destruct (callBruteForce bruteForce (positionAt misformattedJSON ci si g)).
  { simpl. split; [lia | repeat constructor; simpl; lia]. }
  destruct heuristic as [h|].
  - simpl in Hkeeps. specialize (Hkeeps (positionAt misformattedJSON ci si g) Hg).
    destruct (h (positionAt misformattedJSON ci si g)) as [g' result].
    simpl in Hkeeps. destruct result.
    + simpl. split; [lia | constructor].
    + apply defaultHeuristics_aufoFilled. exact Hkeeps.
  - apply defaultHeuristics_aufoFilled. exact Hg.
Qed.

(** ** The older entry point

    The two-argument [preParse] is not the entry point of the
    specification: for a single success it returns the bare string, and
    for none it returns nothing.  Its brute-force fork sets [isString]
    in the continued guess whatever it was, and its heuristic hook's
    result is appended by the engine. *)

Lemma legacy_single_success_is_bare :
  Legacy.preParse json1 None None = Legacy.OneString json1_repaired.
Proof. vm_compute. reflexivity. Qed.

Lemma legacy_no_success_is_undefined :
  Legacy.preParse [] None None = Legacy.Undefined
  /\ Legacy.preParse APOSTROPHE None None = Legacy.Undefined.
Proof. split; vm_compute; reflexivity. Qed.

Lemma legacy_bruteForce_guesses :
  Legacy.walk APOSTROPHE (Some (fun _ => true)) None [APOSTROPHE] 0 0 [] true []
  = [APOSTROPHE; QUOTE].
Proof. reflexivity. Qed.

(** * Further properties of the code *)

(** ** The decomposition into characters *)

(** X1.  The characters of a text, concatenated, are the text; and each
    character is one code unit, or a lead surrogate followed by a trail
    surrogate. *)
Theorem codePoints_roundtrip (s : JSString) :
  concat (codePoints s) = s
  /\ Forall (fun c => (exists u, c = [u])
                      \/ (exists a b, c = [a; b]
                                      /\ isLeadSurrogate a = true
                                      /\ isTrailSurrogate b = true))
            (codePoints s).
Proof.
  split; [apply codePoints_concat |].
  assert (H : forall n s, (List.length s <= n)%nat ->
              Forall (fun c => (exists u, c = [u])
                               \/ (exists a b, c = [a; b]
                                               /\ isLeadSurrogate a = true
                                               /\ isTrailSurrogate b = true))
                     (codePoints s)).
  { clear s. induction n as [|n IH]; intros [|c [|d t]] Hlen; simpl in *;
      try constructor; try lia; eauto.
    destruct (isLeadSurrogate c && isTrailSurrogate d) eqn:Hpair.
    - apply andb_true_iff in Hpair as [Hc Hd].
      constructor; [right; eauto | apply IH; lia].
    - constructor; [left; eauto | apply (IH (d :: t)); simpl; lia]. }
  apply (H (List.length s)). lia.
Qed.

(** ** The indexes of the scan *)

(** Scanning characters one after the other is scanning the first ones,
    then the others from the indexes reached. *)
Lemma scanFrom_app
      (misformattedJSON : JSString) (bruteForce : option BruteForce)
      (heuristic : option Heuristic) (TRY_HARD : bool)
      (before after : list JSString) :
  forall (characterIndex stringIndex : Z) (guesses : list Guess),
    scanFrom misformattedJSON bruteForce heuristic TRY_HARD
             (before ++ after) characterIndex stringIndex guesses
    = scanFrom misformattedJSON bruteForce heuristic TRY_HARD after
               (characterIndex + Z.of_nat (List.length before))
               (stringIndex + JS.length (concat before))
               (scanFrom misformattedJSON bruteForce heuristic TRY_HARD
                         before characterIndex stringIndex guesses).
Proof.
  induction before as [|c cs IH]; intros ci si guesses.
  - simpl. unfold JS.length. simpl. rewrite !Z.add_0_r. reflexivity.
  - simpl scanFrom at 1. rewrite IH. simpl. f_equal.
    + lia.
    + unfold JS.length. rewrite length_app. lia.
Qed.

(** X2.  When the scan reaches a single-quote of the text, the indexes
    it holds are the number of characters and the number of code units
    before it, and the position handed to the hooks has for preceding
    and following strings exactly the text before and the text after
    that single-quote. *)
Theorem hooks_see_the_text_around
        (misformattedJSON : JSString) (bruteForce : option BruteForce)
        (heuristic : option Heuristic) (TRY_HARD : bool)
        (before after : list JSString) (g : Guess) :
  codePoints misformattedJSON = before ++ APOSTROPHE :: after ->
  scan misformattedJSON bruteForce heuristic TRY_HARD
  = scanFrom misformattedJSON bruteForce heuristic TRY_HARD after
             (Z.of_nat (List.length before) + 1)
             (JS.length (concat before) + 1)
             (stepCharacter misformattedJSON bruteForce heuristic TRY_HARD
                (Z.of_nat (List.length before)) (JS.length (concat before))
                APOSTROPHE
                (scanFrom misformattedJSON bruteForce heuristic TRY_HARD
                          before 0 0 [initialGuess]))
  /\ precedingString
       (positionAt misformattedJSON (Z.of_nat (List.length before))
                   (JS.length (concat before)) g)
     = concat before
  /\ followingString
       (positionAt misformattedJSON (Z.of_nat (List.length before))
                   (JS.length (concat before)) g)
     = concat after
  /\ concat before ++ APOSTROPHE ++ concat after = misformattedJSON.
Proof.
  intros Hsplit.
  assert (Htext : concat before ++ APOSTROPHE ++ concat after = misformattedJSON).
  { rewrite <- (codePoints_concat misformattedJSON), Hsplit.
    rewrite concat_app. reflexivity. }
  split; [| split; [| split]].
  - unfold scan. rewrite Hsplit, scanFrom_app. reflexivity.
  - simpl. unfold sliceTo, JS.length. rewrite Nat2Z.id.
    rewrite <- Htext. rewrite firstn_app, firstn_all, Nat.sub_diag.
    simpl. apply app_nil_r.
  - simpl. unfold sliceFrom, JS.length.
    replace (Z.to_nat (Z.of_nat (List.length (concat before)) + 1))
      with (List.length (concat before ++ APOSTROPHE))
      by (rewrite length_app; simpl; lia).
    rewrite <- Htext.
    change (concat before ++ APOSTROPHE ++ concat after)
      with (concat before ++ (APOSTROPHE ++ concat after)).
    rewrite app_assoc. rewrite skipn_app, skipn_all, Nat.sub_diag.
    reflexivity.
  - exact Htext.
Qed.

(** On [json1], at the second single-quote: seven characters before. *)
Lemma hooks_see_the_text_around_witness :
  precedingString (positionAt json1 7 7 initialGuess) = str "['Bob O"
  /\ followingString (positionAt json1 7 7 initialGuess) = str "Rielly']".
Proof.
  destruct (hooks_see_the_text_around json1 None None false
              (units (str "['Bob O")) (units (str "Rielly']")) initialGuess
              eq_refl) as (_ & Hbefore & Hafter & _).
  split; [exact Hbefore | exact Hafter].
Defined.

(** ** The number of guesses *)

Section Guesses.

Variable misformattedJSON : JSString.
Variable bruteForce : option BruteForce.
Variable heuristic : option Heuristic.
Variable TRY_HARD : bool.

(** The guesses present before a character are each continued, in
    place. *)
Lemma forEachGuess_stepped (characterIndex stringIndex : Z)
      (character : JSString) (guesses : list Guess) :
  fst (forEachGuess misformattedJSON bruteForce heuristic TRY_HARD
                    characterIndex stringIndex character guesses)
  = map (fun g => fst (stepGuess misformattedJSON bruteForce heuristic TRY_HARD
                                 characterIndex stringIndex character g))
        guesses.
Proof.
  induction guesses as [|g gs IH]; simpl; [reflexivity |].
  destruct (forEachGuess misformattedJSON bruteForce heuristic TRY_HARD
              characterIndex stringIndex character gs) as [rest' earlier].
  destruct (stepGuess misformattedJSON bruteForce heuristic TRY_HARD
              characterIndex stringIndex character g) as [g' pushed].
  simpl in *. rewrite IH. reflexivity.
Qed.

(** A guess is among the pushed ones when one of the guesses pushed
    it. *)
Lemma forEachGuess_pushed (characterIndex stringIndex : Z)
      (character : JSString) (guesses : list Guess) (x : Guess) :
  In x (snd (forEachGuess misformattedJSON bruteForce heuristic TRY_HARD
                          characterIndex stringIndex character guesses))
  <-> exists g, In g guesses
                /\ In x (snd (stepGuess misformattedJSON bruteForce heuristic
                                        TRY_HARD characterIndex stringIndex
                                        character g)).
Proof.
  induction guesses as [|g gs IH]; simpl.
  - split; [intros [] | intros (g & [] & _)].
  - destruct (forEachGuess misformattedJSON bruteForce heuristic TRY_HARD
                characterIndex stringIndex character gs) as [rest' earlier].
    destruct (stepGuess misformattedJSON bruteForce heuristic TRY_HARD
                characterIndex stringIndex character g) as [g' pushed] eqn:Hg.
    simpl in *. rewrite in_app_iff, IH. split.
    + intros [(g0 & Hin & Hx) | Hx].
      * exists g0. split; [right; exact Hin | exact Hx].
      * exists g. split; [left; reflexivity | rewrite Hg; exact Hx].
    + intros (g0 & [<- | Hin] & Hx).
      * right. rewrite Hg in Hx. exact Hx.
      * left. exists g0. split; assumption.
Qed.

(** The guesses after a character: the continuation of each guess, and
    what each guess pushed. *)
Lemma In_stepCharacter (characterIndex stringIndex : Z)
      (character : JSString) (guesses : list Guess) (x : Guess) :
  In x (stepCharacter misformattedJSON bruteForce heuristic TRY_HARD
                      characterIndex stringIndex character guesses)
  <-> exists g, In g guesses
                /\ (x = fst (stepGuess misformattedJSON bruteForce heuristic
                                       TRY_HARD characterIndex stringIndex
                                       character g)
                    \/ In x (snd (stepGuess misformattedJSON bruteForce heuristic
                                            TRY_HARD characterIndex stringIndex
                                            character g))).
Proof.
  unfold stepCharacter.
  pose proof (forEachGuess_stepped characterIndex stringIndex character guesses)
    as Hstepped.
  pose proof (forEachGuess_pushed characterIndex stringIndex character guesses x)
    as Hpushed.
  destruct (forEachGuess misformattedJSON bruteForce heuristic TRY_HARD
              characterIndex stringIndex character guesses) as [stepped pushed].
  simpl in *. rewrite in_app_iff, Hstepped, in_map_iff, Hpushed. split.
  - intros [(g & Hx & Hin) | (g & Hin & Hx)]; exists g; auto.
  - intros (g & Hin & [Hx | Hx]); [left | right]; exists g; auto.
Qed.

(** The number of guesses pushed by the guesses of a list. *)
Lemma forEachGuess_pushed_length (bound : nat) (characterIndex stringIndex : Z)
      (character : JSString) (guesses : list Guess) :
  (forall g, (List.length (snd (stepGuess misformattedJSON bruteForce heuristic
                                          TRY_HARD characterIndex stringIndex
                                          character g)) <= bound)%nat) ->
  (List.length (snd (forEachGuess misformattedJSON bruteForce heuristic TRY_HARD
                                  characterIndex stringIndex character guesses))
   <= bound * List.length guesses)%nat.
Proof.
  intros Hbound. induction guesses as [|g gs IH]; simpl; [lia |].
  destruct (forEachGuess misformattedJSON bruteForce heuristic TRY_HARD
              characterIndex stringIndex character gs) as [rest' earlier].
  specialize (Hbound g).
  destruct (stepGuess misformattedJSON bruteForce heuristic TRY_HARD
              characterIndex stringIndex character g) as [g' pushed].
  simpl in *. rewrite length_app. lia.
Qed.

(** One guess pushes nothing at a character other than the single-quote
    and at most one guess (two under [TRY_HARD]) at a single-quote. *)
Lemma stepGuess_pushes (characterIndex stringIndex : Z)
      (character : JSString) (g : Guess) :
  (List.length (snd (stepGuess misformattedJSON bruteForce heuristic TRY_HARD
                               characterIndex stringIndex character g))
   <= if JS.eqb character APOSTROPHE then pushesAtMost TRY_HARD else 0)%nat.
Proof.
  unfold stepGuess, stepApostrophe, defaultHeuristics, pushesAtMost.
  cbv zeta.
  destruct (nonzero (aufoFilled g)); [simpl; destruct (JS.eqb _ _), TRY_HARD; lia |].
  destruct (JS.eqb character APOSTROPHE); simpl; [| lia].
  destruct (callBruteForce _ _); [simpl; destruct TRY_HARD; lia |].
  destruct heuristic as [h|].
  - destruct (h _) as [g' result]. destruct result; [simpl; destruct TRY_HARD; lia |].
    repeat break_if; simpl; lia.
  - repeat break_if; simpl; lia.
Qed.

Lemma stepCharacter_length (characterIndex stringIndex : Z)
      (character : JSString) (guesses : list Guess) :
  (List.length guesses
   <= List.length (stepCharacter misformattedJSON bruteForce heuristic TRY_HARD
                                 characterIndex stringIndex character guesses)
   <= (1 + if JS.eqb character APOSTROPHE then pushesAtMost TRY_HARD else 0)
      * List.length guesses)%nat.
Proof.
  unfold stepCharacter.
  pose proof (forEachGuess_stepped characterIndex stringIndex character guesses)
    as Hstepped.
  pose proof (forEachGuess_pushed_length _ characterIndex stringIndex character
                guesses (stepGuess_pushes characterIndex stringIndex character))
    as Hpushed.
  destruct (forEachGuess misformattedJSON bruteForce heuristic TRY_HARD
              characterIndex stringIndex character guesses) as [stepped pushed].
  simpl in *. rewrite length_app, Hstepped, length_map. lia.
Qed.

Lemma scanFrom_length (characters : list JSString) :
  forall (characterIndex stringIndex : Z) (guesses : list Guess),
    (List.length guesses
     <= List.length (scanFrom misformattedJSON bruteForce heuristic TRY_HARD
                              characters characterIndex stringIndex guesses)
     <= (1 + pushesAtMost TRY_HARD) ^ apostrophes characters
        * List.length guesses)%nat.
Proof.
  induction characters as [|c cs IH]; intros ci si guesses.
  - simpl. lia.
  - cbn [scanFrom apostrophes].
    pose proof (stepCharacter_length ci si c guesses) as Hstep.
    pose proof (IH (ci + 1) (si + JS.length c)
                   (stepCharacter misformattedJSON bruteForce heuristic TRY_HARD
                                  ci si c guesses)) as Hrest.
    set (after := List.length (stepCharacter misformattedJSON bruteForce heuristic
                                             TRY_HARD ci si c guesses)) in *.
    set (final := List.length (scanFrom _ _ _ _ _ _ _ _)) in *.
    set (p := ((1 + pushesAtMost TRY_HARD) ^ apostrophes cs)%nat) in *.
    destruct (JS.eqb c APOSTROPHE).
    + rewrite Nat.pow_add_r, Nat.pow_1_r. fold p. nia.
    + rewrite Nat.add_0_l. fold p. nia.
Qed.

End Guesses.

(** X3.  No guess is ever removed and the list cannot grow faster than
    by forking at single-quotes: at the end of the scan there is at
    least one guess and at most 2 to the power of the number of
    single-quotes of the text, 3 to that power under [TRY_HARD],
    whatever the hooks. *)
Theorem guesses_bounded
        (misformattedJSON : JSString) (bruteForce : option BruteForce)
        (heuristic : option Heuristic) (TRY_HARD : bool) :
  (1 <= List.length (scan misformattedJSON bruteForce heuristic TRY_HARD)
   <= (if TRY_HARD then 3 else 2) ^ apostrophes (codePoints misformattedJSON))%nat.
Proof.
  pose proof (scanFrom_length misformattedJSON bruteForce heuristic TRY_HARD
                (codePoints misformattedJSON) 0 0 [initialGuess]) as H.
  unfold scan. simpl List.length in H.
  replace (if TRY_HARD then 3 else 2)%nat with (1 + pushesAtMost TRY_HARD)%nat
    by (destruct TRY_HARD; reflexivity).
  lia.
Qed.

(** A string is a success when a guess that parses carries it. *)
Lemma In_collect (guesses : list Guess) (r : JSString) :
  In r (collect guesses)
  <-> exists g, In g guesses /\ string g = r /\ JSON.parses r = true.
Proof.
  unfold collect. rewrite in_map_iff. split.
  - intros (g & Hr & Hin). apply filter_In in Hin as [Hin Hp].
    exists g. subst r. auto.
  - intros (g & Hin & Hr & Hp). exists g. split; [exact Hr |].
    apply filter_In. subst r. auto.
Qed.

(** ** Brute force at every single-quote *)

Section AlwaysForks.

Variable misformattedJSON : JSString.
Variable f : BruteForce.
Variable heuristic : option Heuristic.
Variable TRY_HARD : bool.
Hypothesis Hforks : alwaysForks f.

(** With the fork asked everywhere, the step of a guess with no
    auto-fill pending does not depend on its flags. *)
Lemma stepGuess_alwaysForks (characterIndex stringIndex : Z)
      (character : JSString) (g : Guess) :
  aufoFilled g = 0 ->
  stepGuess misformattedJSON (Some f) heuristic TRY_HARD
            characterIndex stringIndex character g
  = if JS.eqb character APOSTROPHE
    then (append QUOTE g, [set_string (string g ++ APOSTROPHE) g])
    else (stepOther character g, []).
Proof.
  intros Hfill. unfold stepGuess, stepApostrophe, callBruteForce.
  rewrite Hfill. simpl. rewrite Hforks.
  destruct (JS.eqb character APOSTROPHE); reflexivity.
Qed.

Lemma stepCharacter_alwaysForks_noAutoFill (characterIndex stringIndex : Z)
      (character : JSString) (guesses : list Guess) :
  Forall (fun g => aufoFilled g = 0) guesses ->
  Forall (fun g => aufoFilled g = 0)
         (stepCharacter misformattedJSON (Some f) heuristic TRY_HARD
                        characterIndex stringIndex character guesses).
Proof.
  apply stepCharacter_Forall. intros g Hg.
  rewrite (stepGuess_alwaysForks _ _ _ _ Hg).
  destruct (JS.eqb character APOSTROPHE); simpl.
  - split; [exact Hg | repeat constructor; exact Hg].
  - split; [rewrite stepOther_aufoFilled; exact Hg | constructor].
Qed.

(** The strings at the end of the scan: the string of a guess present at
    the start, followed by a variant of the characters read. *)
Lemma scanFrom_alwaysForks (characters : list JSString) :
  forall (characterIndex stringIndex : Z) (guesses : list Guess),
    Forall (fun g => aufoFilled g = 0) guesses ->
    forall v,
      In v (map string (scanFrom misformattedJSON (Some f) heuristic TRY_HARD
                                 characters characterIndex stringIndex guesses))
      <-> exists g w, In g guesses /\ In w (variants characters)
                      /\ v = string g ++ w.
Proof.
  induction characters as [|c cs IH]; intros ci si guesses Hfill v.
  - simpl. rewrite in_map_iff. split.
    + intros (g & <- & Hin). exists g, []. rewrite app_nil_r. auto.
    + intros (g & w & Hin & [<- | []] & ->). exists g.
      rewrite app_nil_r. auto.
  - cbn [scanFrom].
    rewrite (IH _ _ _ (stepCharacter_alwaysForks_noAutoFill ci si c guesses Hfill)).
    split.
    + intros (g' & w & Hin & Hw & ->).
      apply In_stepCharacter in Hin as (g & Hg & Hstep).
      assert (Hg0 : aufoFilled g = 0)
        by (rewrite Forall_forall in Hfill; apply Hfill; exact Hg).
      rewrite (stepGuess_alwaysForks ci si c g Hg0) in Hstep.
      cbn [variants]. destruct (JS.eqb c APOSTROPHE) eqn:Hc; simpl in Hstep.
      * destruct Hstep as [-> | [<- | []]]; simpl.
        -- exists g, (QUOTE ++ w). split; [exact Hg |]. split.
           ++ apply in_or_app. left. apply in_map. exact Hw.
           ++ rewrite <- app_assoc. reflexivity.
        -- exists g, (APOSTROPHE ++ w). split; [exact Hg |]. split.
           ++ apply in_or_app. right. apply in_map. exact Hw.
           ++ rewrite <- app_assoc. reflexivity.
      * destruct Hstep as [-> | []].
        exists g, (c ++ w). split; [exact Hg |]. split.
        -- apply in_map. exact Hw.
        -- rewrite stepOther_string, <- app_assoc. reflexivity.
    + intros (g & w & Hg & Hw & ->).
      assert (Hg0 : aufoFilled g = 0)
        by (rewrite Forall_forall in Hfill; apply Hfill; exact Hg).
      pose proof (stepGuess_alwaysForks ci si c g Hg0) as Hstep.
      cbn [variants] in Hw. destruct (JS.eqb c APOSTROPHE) eqn:Hc.
      * apply in_app_or in Hw as [Hw | Hw];
          apply in_map_iff in Hw as (w' & <- & Hw').
        -- exists (append QUOTE g), w'. split; [| split; [exact Hw' |]].
           ++ apply In_stepCharacter. exists g. split; [exact Hg |].
              left. rewrite Hstep. reflexivity.
           ++ simpl. rewrite <- app_assoc. reflexivity.
        -- exists (set_string (string g ++ APOSTROPHE) g), w'.
           split; [| split; [exact Hw' |]].
           ++ apply In_stepCharacter. exists g. split; [exact Hg |].
              right. rewrite Hstep. left. reflexivity.
           ++ simpl. rewrite <- app_assoc. reflexivity.
      * apply in_map_iff in Hw as (w' & <- & Hw').
        exists (stepOther c g), w'. split; [| split; [exact Hw' |]].
        -- apply In_stepCharacter. exists g. split; [exact Hg |].
           left. rewrite Hstep. reflexivity.
        -- rewrite stepOther_string, <- app_assoc. reflexivity.
Qed.

(** Each character doubles the guesses at a single-quote and keeps
    their number otherwise. *)
Lemma scanFrom_alwaysForks_length (characters : list JSString) :
  forall (characterIndex stringIndex : Z) (guesses : list Guess),
    Forall (fun g => aufoFilled g = 0) guesses ->
    List.length (scanFrom misformattedJSON (Some f) heuristic TRY_HARD
                          characters characterIndex stringIndex guesses)
    = (2 ^ apostrophes characters * List.length guesses)%nat.
Proof.
  induction characters as [|c cs IH]; intros ci si guesses Hfill.
  - simpl. lia.
  - cbn [scanFrom apostrophes].
    rewrite (IH _ _ _ (stepCharacter_alwaysForks_noAutoFill ci si c guesses Hfill)).
    assert (Hlen : List.length (stepCharacter misformattedJSON (Some f) heuristic
                                  TRY_HARD ci si c guesses)
                   = ((if JS.eqb c APOSTROPHE then 2 else 1)
                      * List.length guesses)%nat).
    { unfold stepCharacter. clear IH.
      induction Hfill as [|g gs Hg _ IHgs]; simpl.
      - destruct (JS.eqb c APOSTROPHE); reflexivity.
      - destruct (forEachGuess misformattedJSON (Some f) heuristic TRY_HARD
                    ci si c gs) as [rest' earlier].
        rewrite (stepGuess_alwaysForks ci si c g Hg).
        rewrite length_app in IHgs.
        destruct (JS.eqb c APOSTROPHE); simpl in *;
          rewrite !length_app; simpl; lia. }
    rewrite Hlen. destruct (JS.eqb c APOSTROPHE).
    + rewrite Nat.pow_add_r, Nat.pow_1_r. lia.
    + rewrite Nat.add_0_l. lia.
Qed.

End AlwaysForks.

(** X4.  With a brute-force hook that returns true at every
    single-quote, the heuristic hook and [TRY_HARD] play no part: the
    guesses are 2 to the power of the number of single-quotes, their
    strings are exactly the texts obtained by keeping or replacing each
    single-quote, and the successes are exactly those of these texts
    that parse. *)
Theorem bruteForce_enumerates
        (misformattedJSON : JSString) (f : BruteForce)
        (heuristic : option Heuristic) (TRY_HARD : bool) :
  alwaysForks f ->
  List.length (scan misformattedJSON (Some f) heuristic TRY_HARD)
  = (2 ^ apostrophes (codePoints misformattedJSON))%nat
  /\ (forall v,
        In v (map string (scan misformattedJSON (Some f) heuristic TRY_HARD))
        <-> In v (variants (codePoints misformattedJSON)))
  /\ (forall r,
        In r (preParse misformattedJSON (Some f) heuristic TRY_HARD)
        <-> In r (variants (codePoints misformattedJSON))
            /\ JSON.parses r = true).
Proof.
  intros Hforks.
  assert (Hinit : Forall (fun g => aufoFilled g = 0) [initialGuess])
    by (repeat constructor).
  assert (Hstrings : forall v,
             In v (map string (scan misformattedJSON (Some f) heuristic TRY_HARD))
             <-> In v (variants (codePoints misformattedJSON))).
  { intros v. unfold scan.
    rewrite (scanFrom_alwaysForks misformattedJSON f heuristic TRY_HARD Hforks
               (codePoints misformattedJSON) 0 0 [initialGuess] Hinit v).
    split.
    - intros (g & w & [<- | []] & Hw & ->). exact Hw.
    - intros Hw. exists initialGuess, v. simpl. auto. }
  split; [| split; [exact Hstrings |]].
  - unfold scan.
    rewrite (scanFrom_alwaysForks_length misformattedJSON f heuristic TRY_HARD
               Hforks (codePoints misformattedJSON) 0 0 [initialGuess] Hinit).
    simpl. lia.
  - intros r. unfold preParse. rewrite In_collect, <- Hstrings, in_map_iff.
    split.
    + intros (g & Hin & Hr & Hp). split; [exists g; auto | exact Hp].
    + intros [(g & Hr & Hin) Hp]. exists g. auto.
Qed.

(** On [json1], whose single-quotes are three, [alwaysBruteForce] gives
    eight guesses; the repair is among the variants and is a success. *)
Lemma bruteForce_enumerates_witness :
  List.length (scan json1 (Some alwaysBruteForce) None false) = 8%nat
  /\ In json1_repaired (preParse json1 (Some alwaysBruteForce) None false).
Proof.
  destruct (bruteForce_enumerates json1 alwaysBruteForce None false
              (fun _ => eq_refl)) as (Hlen & _ & Hsuccess).
  split; [exact Hlen |].
  apply (proj2 (Hsuccess json1_repaired)). split.
  - vm_compute. right. right. left. reflexivity.
  - vm_compute. reflexivity.
Defined.

(** ** What [TRY_HARD] adds *)

Section TryHard.

Variable misformattedJSON : JSString.
Variable bruteForce : option BruteForce.
Variable heuristic : option Heuristic.

(** [TRY_HARD] does not change what becomes of a guess; it only adds to
    the guesses pushed. *)
Lemma defaultHeuristics_TRY_HARD
      (stringIndex : Z) (following : JSString) (isString0 isEscaped0 : bool)
      (isJSONType0 : option JSONType) (isObjectField0 : bool) (g : Guess) :
  fst (defaultHeuristics misformattedJSON false stringIndex following
         isString0 isEscaped0 isJSONType0 isObjectField0 g)
  = fst (defaultHeuristics misformattedJSON true stringIndex following
           isString0 isEscaped0 isJSONType0 isObjectField0 g)
  /\ incl (snd (defaultHeuristics misformattedJSON false stringIndex following
                  isString0 isEscaped0 isJSONType0 isObjectField0 g))
          (snd (defaultHeuristics misformattedJSON true stringIndex following
                  isString0 isEscaped0 isJSONType0 isObjectField0 g)).
Proof.
  unfold defaultHeuristics. cbv zeta.
  repeat break_if; simpl; split; try reflexivity;
    intros x Hx; simpl in *; tauto.
Qed.

Lemma stepGuess_TRY_HARD (characterIndex stringIndex : Z)
      (character : JSString) (g : Guess) :
  fst (stepGuess misformattedJSON bruteForce heuristic false
                 characterIndex stringIndex character g)
  = fst (stepGuess misformattedJSON bruteForce heuristic true
                   characterIndex stringIndex character g)
  /\ incl (snd (stepGuess misformattedJSON bruteForce heuristic false
                          characterIndex stringIndex character g))
          (snd (stepGuess misformattedJSON bruteForce heuristic true
                          characterIndex stringIndex character g)).
Proof.
  unfold stepGuess, stepApostrophe.
  destruct (nonzero (aufoFilled g)); [split; [reflexivity | apply incl_refl] |].
  destruct (negb (JS.eqb character APOSTROPHE));
    [split; [reflexivity | apply incl_refl] |].
  cbv zeta.
  destruct (callBruteForce bruteForce _);
    [split; [reflexivity | apply incl_refl] |].
  destruct heuristic as [h|].
  - destruct (h _) as [g' result].
    destruct result; [split; [reflexivity | apply incl_refl] |].
    apply defaultHeuristics_TRY_HARD.
  - apply defaultHeuristics_TRY_HARD.
Qed.

(** Every guess of the scan without [TRY_HARD] is a guess of the scan
    with it. *)
Lemma scanFrom_TRY_HARD (characters : list JSString) :
  forall (characterIndex stringIndex : Z) (plain hard : list Guess),
    incl plain hard ->
    incl (scanFrom misformattedJSON bruteForce heuristic false
                   characters characterIndex stringIndex plain)
         (scanFrom misformattedJSON bruteForce heuristic true
                   characters characterIndex stringIndex hard).
Proof.
  induction characters as [|c cs IH]; intros ci si plain hard Hincl;
    [exact Hincl |].
  cbn [scanFrom]. apply IH. intros x Hx.
  apply In_stepCharacter in Hx as (g & Hg & Hstep).
  apply In_stepCharacter. exists g. split; [apply Hincl; exact Hg |].
  destruct (stepGuess_TRY_HARD ci si c g) as [Hfst Hsnd].
  destruct Hstep as [-> | Hpushed].
  - left. exact Hfst.
  - right. apply Hsnd. exact Hpushed.
Qed.

End TryHard.

(** X5.  Whatever the text and the hooks, every success found without
    [TRY_HARD] is also found with it. *)
Theorem TRY_HARD_keeps_successes
        (misformattedJSON : JSString) (bruteForce : option BruteForce)
        (heuristic : option Heuristic) :
  incl (preParse misformattedJSON bruteForce heuristic false)
       (preParse misformattedJSON bruteForce heuristic true).
Proof.
  intros r Hr. unfold preParse in *.
  apply In_collect in Hr as (g & Hg & Hstr & Hp).
  apply In_collect. exists g. split; [| auto].
  apply (scanFrom_TRY_HARD misformattedJSON bruteForce heuristic
           (codePoints misformattedJSON) 0 0 [initialGuess] [initialGuess]
           (incl_refl _)).
  exact Hg.
Qed.

(** ** A text without single-quote *)

(** Outside a string, a character other than the single-quote leaves
    the guess outside a string and moves each counter by the opening
    and closing characters alone. *)
Lemma stepOther_outside (character : JSString) (g : Guess) :
  isString g = false ->
  isString (stepOther character g) = false
  /\ isEscaped (stepOther character g) = isEscaped g
  /\ isArray (stepOther character g)
     = isArray g + occurrences [cu_lbracket] [character]
       - occurrences [cu_rbracket] [character]
  /\ isObject (stepOther character g)
     = isObject g + occurrences [cu_lbrace] [character]
       - occurrences [cu_rbrace] [character].
Proof.
  intros Hstr. unfold stepOther. rewrite Hstr.
  destruct (JS.eqb character [cu_lbrace]) eqn:E1;
    [apply eqb_eq in E1; subst character; simpl; repeat split; auto; lia |].
  destruct (JS.eqb character [cu_colon]) eqn:E2;
    [apply eqb_eq in E2; subst character; simpl; repeat split; auto; lia |].
  destruct (JS.eqb character [cu_rbrace]) eqn:E3;
    [apply eqb_eq in E3; subst character; simpl; repeat split; auto; lia |].
  destruct (JS.eqb character [cu_lbracket]) eqn:E4;
    [apply eqb_eq in E4; subst character; simpl; repeat split; auto; lia |].
  destruct (JS.eqb character [cu_rbracket]) eqn:E5;
    [apply eqb_eq in E5; subst character; simpl; repeat split; auto; lia |].
  cbn [occurrences]. rewrite E1, E3, E4, E5.
  destruct (isObjectValue g && isType (isJSONType g) object_value
            && JS.eqb character [cu_comma]); simpl; repeat split; auto; lia.
Qed.

Lemma occurrences_cons (c x : JSString) (characters : list JSString) :
  occurrences c (x :: characters)
  = occurrences c [x] + occurrences c characters.
Proof. simpl. lia. Qed.

Section NoApostrophe.

Variable misformattedJSON : JSString.
Variable bruteForce : option BruteForce.
Variable heuristic : option Heuristic.
Variable TRY_HARD : bool.

Lemma scanFrom_outside (characters : list JSString) :
  Forall (fun c => JS.eqb c APOSTROPHE = false) characters ->
  forall (characterIndex stringIndex : Z) (g : Guess),
    aufoFilled g = 0 ->
    isString g = false ->
    exists g',
      scanFrom misformattedJSON bruteForce heuristic TRY_HARD
               characters characterIndex stringIndex [g] = [g']
      /\ string g' = string g ++ concat characters
      /\ isString g' = false
      /\ isEscaped g' = isEscaped g
      /\ aufoFilled g' = 0
      /\ isArray g' = isArray g + occurrences [cu_lbracket] characters
                      - occurrences [cu_rbracket] characters
      /\ isObject g' = isObject g + occurrences [cu_lbrace] characters
                       - occurrences [cu_rbrace] characters.
Proof.
  induction 1 as [|c cs Hc _ IH]; intros ci si g Hfill Hstr.
  - exists g. simpl. rewrite app_nil_r. repeat split; auto; lia.
  - destruct (stepOther_outside c g Hstr) as (Hs & He & Ha & Ho).
    destruct (IH (ci + 1) (si + JS.length c) (stepOther c g))
      as (g' & Hrun & Hstring & Hs' & He' & Hf' & Ha' & Ho').
    { rewrite stepOther_aufoFilled. exact Hfill. }
    { exact Hs. }
    exists g'. split.
    { cbn [scanFrom]. unfold stepCharacter. cbn [forEachGuess].
      rewrite (stepGuess_other misformattedJSON bruteForce heuristic TRY_HARD
                 ci si c g Hfill Hc).
      exact Hrun. }
    rewrite (occurrences_cons [cu_lbracket]), (occurrences_cons [cu_rbracket]),
      (occurrences_cons [cu_lbrace]), (occurrences_cons [cu_rbrace]).
    repeat split; auto; try lia.
    + rewrite Hstring, stepOther_string. simpl. rewrite app_assoc. reflexivity.
    + congruence.
Qed.

End NoApostrophe.

(** X6.  On a text without single-quote, whatever the hooks and
    [TRY_HARD], the scan ends with one guess: its string is the text, it
    is outside a string with nothing skipped, and its array and object
    counters are the numbers of opening minus closing brackets and
    braces of the text. *)
Theorem scan_without_apostrophe
        (misformattedJSON : JSString) (bruteForce : option BruteForce)
        (heuristic : option Heuristic) (TRY_HARD : bool) :
  ~ In cu_apostrophe misformattedJSON ->
  exists g,
    scan misformattedJSON bruteForce heuristic TRY_HARD = [g]
    /\ string g = misformattedJSON
    /\ isString g = false
    /\ isEscaped g = false
    /\ aufoFilled g = 0
    /\ isArray g
       = occurrences [cu_lbracket] (codePoints misformattedJSON)
         - occurrences [cu_rbracket] (codePoints misformattedJSON)
    /\ isObject g
       = occurrences [cu_lbrace] (codePoints misformattedJSON)
         - occurrences [cu_rbrace] (codePoints misformattedJSON).
Proof.
  intros Hno.
  destruct (scanFrom_outside misformattedJSON bruteForce heuristic TRY_HARD
              (codePoints misformattedJSON)
              (codePoints_no_apostrophe misformattedJSON Hno)
              0 0 initialGuess eq_refl eq_refl)
    as (g & Hrun & Hstring & Hs & He & Hf & Ha & Ho).
  exists g. simpl in *. rewrite codePoints_concat in Hstring.
  repeat split; auto; lia.
Qed.

(** On the text of two opening brackets and one closing bracket, with
    hooks that are never called, the array counter ends at 1. *)
Lemma scan_without_apostrophe_witness :
  exists g,
    scan (str "[[]") (Some alwaysBruteForce) (Some voidHeuristic) true = [g]
    /\ string g = str "[[]"
    /\ isArray g = 1
    /\ isObject g = 0.
Proof.
  destruct (scan_without_apostrophe (str "[[]") (Some alwaysBruteForce)
              (Some voidHeuristic) true)
    as (g & Hrun & Hstring & _ & _ & _ & Ha & Ho).
  { intros H. vm_compute in H. intuition discriminate. }
  exists g. repeat split; assumption.
Defined.

(** ** Skipping what was auto-filled *)

Lemma set_aufoFilled_twice (a b : Z) (g : Guess) :
  set_aufoFilled a (set_aufoFilled b g) = set_aufoFilled a g.
Proof. reflexivity. Qed.

Lemma set_aufoFilled_same (g : Guess) (a : Z) :
  a = aufoFilled g -> set_aufoFilled a g = g.
Proof. intros ->. destruct g. reflexivity. Qed.

(** The continuation of a guess whose counter covers the characters:
    only the counter moves. *)
Lemma follow_skips
      (misformattedJSON : JSString) (bruteForce : option BruteForce)
      (heuristic : option Heuristic) (TRY_HARD : bool)
      (characters : list JSString) :
  forall (characterIndex stringIndex : Z) (g : Guess),
    Z.of_nat (List.length characters) <= aufoFilled g ->
    follow misformattedJSON bruteForce heuristic TRY_HARD
           characters characterIndex stringIndex g
    = set_aufoFilled (aufoFilled g - Z.of_nat (List.length characters)) g.
Proof.
  induction characters as [|c cs IH]; intros ci si g Hlen.
  - simpl. symmetry. apply set_aufoFilled_same. lia.
  - cbn [follow]. rewrite stepGuess_skips by (simpl in Hlen; lia).
    cbn [fst]. rewrite IH by (simpl in *; lia).
    rewrite set_aufoFilled_twice. f_equal. simpl. lia.
Qed.

(** X7.  A guess whose auto-fill counter is at least the number of
    characters read goes through them untouched but for the counter,
    which loses one per character: the characters are not appended, the
    hooks are not called, and nothing is pushed. *)
Theorem autofill_skips_characters
        (misformattedJSON : JSString) (bruteForce : option BruteForce)
        (heuristic : option Heuristic) (TRY_HARD : bool)
        (characters : list JSString) (characterIndex stringIndex : Z)
        (g : Guess) :
  Z.of_nat (List.length characters) <= aufoFilled g ->
  scanFrom misformattedJSON bruteForce heuristic TRY_HARD
           characters characterIndex stringIndex [g]
  = [set_aufoFilled (aufoFilled g - Z.of_nat (List.length characters)) g].
Proof.
  revert characterIndex stringIndex g.
  induction characters as [|c cs IH]; intros ci si g Hlen.
  - simpl. f_equal. symmetry. apply set_aufoFilled_same. lia.
  - cbn [scanFrom]. unfold stepCharacter. cbn [forEachGuess].
    rewrite stepGuess_skips by (simpl in Hlen; lia).
    cbn [app]. rewrite IH by (simpl in *; lia).
    rewrite set_aufoFilled_twice. do 2 f_equal. simpl. lia.
Qed.

(** A guess with the counter at 2 skips a single-quote and a brace,
    although the brute-force hook would fork at the single-quote. *)
Lemma autofill_skips_characters_witness :
  scanFrom [] (Some alwaysBruteForce) None true [APOSTROPHE; str "}"] 0 0
           [set_aufoFilled 2 openGuess]
  = [openGuess].
Proof.
  apply (autofill_skips_characters [] (Some alwaysBruteForce) None true
           [APOSTROPHE; str "}"] 0 0 (set_aufoFilled 2 openGuess)).
  simpl. lia.
Defined.

(** ** Guesses keep their place *)

Section Order.

Variable misformattedJSON : JSString.
Variable bruteForce : option BruteForce.
Variable heuristic : option Heuristic.
Variable TRY_HARD : bool.

Lemma stepCharacter_stepped (characterIndex stringIndex : Z)
      (character : JSString) (guesses : list Guess) :
  exists pushed,
    stepCharacter misformattedJSON bruteForce heuristic TRY_HARD
                  characterIndex stringIndex character guesses
    = map (fun g => fst (stepGuess misformattedJSON bruteForce heuristic TRY_HARD
                                   characterIndex stringIndex character g))
          guesses
      ++ pushed.
Proof.
  unfold stepCharacter.
  pose proof (forEachGuess_stepped misformattedJSON bruteForce heuristic TRY_HARD
                characterIndex stringIndex character guesses) as H.
  destruct (forEachGuess misformattedJSON bruteForce heuristic TRY_HARD
              characterIndex stringIndex character guesses) as [stepped pushed].
  simpl in H. subst stepped. exists pushed. reflexivity.
Qed.

Lemma scanFrom_follow (characters : list JSString) :
  forall (characterIndex stringIndex : Z) (guesses : list Guess),
  exists pushed,
    scanFrom misformattedJSON bruteForce heuristic TRY_HARD
             characters characterIndex stringIndex guesses
    = map (follow misformattedJSON bruteForce heuristic TRY_HARD
                  characters characterIndex stringIndex) guesses
      ++ pushed.
Proof.
  induction characters as [|c cs IH]; intros ci si guesses.
  - exists []. simpl. rewrite map_id, app_nil_r. reflexivity.
  - cbn [scanFrom].
    destruct (stepCharacter_stepped ci si c guesses) as (pushed1 & ->).
    destruct (IH (ci + 1) (si + JS.length c)
                 (map (fun g => fst (stepGuess misformattedJSON bruteForce
                                               heuristic TRY_HARD ci si c g))
                      guesses ++ pushed1)) as (pushed2 & ->).
    exists (map (follow misformattedJSON bruteForce heuristic TRY_HARD cs
                        (ci + 1) (si + JS.length c)) pushed1 ++ pushed2).
    rewrite map_app, map_map, <- app_assoc. reflexivity.
Qed.

End Order.

(** X8.  Guesses keep their index for the whole scan and new guesses
    only come after them: the list at the end of the scan starts with
    the guesses present after the first [n] characters, each continued
    in place, for every [n]. *)
Theorem guesses_keep_their_place
        (misformattedJSON : JSString) (bruteForce : option BruteForce)
        (heuristic : option Heuristic) (TRY_HARD : bool) (n : nat) :
  exists pushed,
    scan misformattedJSON bruteForce heuristic TRY_HARD
    = map (follow misformattedJSON bruteForce heuristic TRY_HARD
                  (skipn n (codePoints misformattedJSON))
                  (Z.of_nat (List.length (firstn n (codePoints misformattedJSON))))
                  (JS.length (concat (firstn n (codePoints misformattedJSON)))))
          (scanPrefix misformattedJSON bruteForce heuristic TRY_HARD n)
      ++ pushed.
Proof.
  unfold scan, scanPrefix.
  assert (Hsplit : scanFrom misformattedJSON bruteForce heuristic TRY_HARD
                     (codePoints misformattedJSON) 0 0 [initialGuess]
                   = scanFrom misformattedJSON bruteForce heuristic TRY_HARD
                       (firstn n (codePoints misformattedJSON)
                        ++ skipn n (codePoints misformattedJSON))
                       0 0 [initialGuess])
    by (rewrite firstn_skipn; reflexivity).
  rewrite Hsplit, scanFrom_app, !Z.add_0_l. apply scanFrom_follow.
Qed.

(** ** Strings only grow *)

Section AppendOnly.

Variable misformattedJSON : JSString.
Variable bruteForce : option BruteForce.
Variable heuristic : option Heuristic.
Variable TRY_HARD : bool.
Hypothesis Happends : onlyAppends heuristic.

Lemma defaultHeuristics_appends
      (stringIndex : Z) (following : JSString) (isString0 isEscaped0 : bool)
      (isJSONType0 : option JSONType) (isObjectField0 : bool) (g x : Guess) :
  x = fst (defaultHeuristics misformattedJSON TRY_HARD stringIndex following
             isString0 isEscaped0 isJSONType0 isObjectField0 g)
  \/ In x (snd (defaultHeuristics misformattedJSON TRY_HARD stringIndex following
                  isString0 isEscaped0 isJSONType0 isObjectField0 g)) ->
  exists suffix, string x = string g ++ suffix.
Proof.
  unfold defaultHeuristics. cbv zeta.
  repeat break_if; simpl; intros H;
    repeat match goal with
           | H : _ \/ _ |- _ => destruct H as [H | H]
           | H : False |- _ => destruct H
           end; subst x; simpl; eauto.
Qed.

(** What a guess becomes and what it pushes extend its string. *)
Lemma stepGuess_appends (characterIndex stringIndex : Z)
      (character : JSString) (g x : Guess) :
  x = fst (stepGuess misformattedJSON bruteForce heuristic TRY_HARD
                     characterIndex stringIndex character g)
  \/ In x (snd (stepGuess misformattedJSON bruteForce heuristic TRY_HARD
                          characterIndex stringIndex character g)) ->
  exists suffix, string x = string g ++ suffix.
Proof.
  unfold stepGuess.
  destruct (nonzero (aufoFilled g)).
  { simpl. intros [-> | []]. exists []. simpl. rewrite app_nil_r. reflexivity. }
  destruct (negb (JS.eqb character APOSTROPHE)).
  { simpl. intros [-> | []]. exists character. apply stepOther_string. }
  unfold stepApostrophe. cbv zeta.
  destruct (callBruteForce bruteForce _).
  { simpl. intros [-> | [<- | []]]; simpl; eauto. }
  destruct heuristic as [h|].
  - simpl in Happends.
    specialize (Happends (positionAt misformattedJSON characterIndex
                                     stringIndex g)).
    destruct (h _) as [g' result]. simpl in Happends.
    destruct Happends as (suffix1 & Hg').
    destruct result.
    + simpl. intros [-> | []]. eauto.
    + intros H. apply defaultHeuristics_appends in H as (suffix2 & ->).
      exists (suffix1 ++ suffix2). rewrite Hg', app_assoc. reflexivity.
  - apply defaultHeuristics_appends.
Qed.

Lemma scanFrom_appends (characters : list JSString) :
  forall (characterIndex stringIndex : Z) (guesses : list Guess) (x : Guess),
    In x (scanFrom misformattedJSON bruteForce heuristic TRY_HARD
                   characters characterIndex stringIndex guesses) ->
    exists g suffix, In g guesses /\ string x = string g ++ suffix.
Proof.
  induction characters as [|c cs IH]; intros ci si guesses x Hx.
  - exists x, []. rewrite app_nil_r. auto.
  - cbn [scanFrom] in Hx.
    apply IH in Hx as (y & suffix2 & Hy & ->).
    apply In_stepCharacter in Hy as (g & Hg & Hstep).
    apply stepGuess_appends in Hstep as (suffix1 & ->).
    exists g, (suffix1 ++ suffix2). rewrite app_assoc. auto.
Qed.

End AppendOnly.

(** X9.  With a heuristic hook that only appends to the string (or
    none), strings only grow: every guess of the end of the scan extends
    the string that some guess had after the first [n] characters, for
    every [n]; in particular every success extends such a string. *)
Theorem strings_only_grow
        (misformattedJSON : JSString) (bruteForce : option BruteForce)
        (heuristic : option Heuristic) (TRY_HARD : bool) (n : nat) (x : Guess) :
  onlyAppends heuristic ->
  In x (scan misformattedJSON bruteForce heuristic TRY_HARD) ->
  exists g suffix,
    In g (scanPrefix misformattedJSON bruteForce heuristic TRY_HARD n)
    /\ string x = string g ++ suffix.
Proof.
  intros Happends Hx. unfold scan in Hx.
  rewrite <- (firstn_skipn n (codePoints misformattedJSON)) in Hx.
  rewrite scanFrom_app in Hx.
  apply (scanFrom_appends misformattedJSON bruteForce heuristic TRY_HARD
           Happends) in Hx.
  exact Hx.
Qed.

(** On [json1] without hooks, the success extends the string one guess
    had after eight characters. *)
Lemma strings_only_grow_witness :
  exists g suffix,
    In g (scanPrefix json1 None None false 8)
    /\ json1_repaired = string g ++ suffix.
Proof.
  assert (Hin : In (mkGuess json1_repaired false false 0 0 false false
                            (Some array) 0)
                   (scan json1 None None false))
    by (vm_compute; left; reflexivity).
  exact (strings_only_grow json1 None None false 8 _ I Hin).
Defined.

(** ** The two patterns *)

Lemma inClass_In (members : list N) (c : N) :
  RegExp.inClass members c = true <-> In c members.
Proof.
  unfold RegExp.inClass. rewrite existsb_exists. split.
  - intros (x & Hin & Heq). apply N.eqb_eq in Heq. subst. exact Hin.
  - intros Hin. exists c. split; [exact Hin | apply N.eqb_refl].
Qed.

(** What the star hands back: a run of the class, and the result of the
    continuation on what follows the run. *)
Lemma star_sound (cls : N -> bool) (k : JSString -> option (list JSString))
      (s m : JSString) (ms : list JSString) :
  RegExp.star cls k s = Some (m, ms) ->
  exists rest, s = m ++ rest /\ Forall (fun c => cls c = true) m
               /\ k rest = Some ms.
Proof.
  revert m ms. induction s as [|c t IH]; intros m ms; simpl.
  - destruct (k []) eqn:Hk; simpl; [| discriminate].
    intros H. injection H as <- <-. exists []. auto.
  - destruct (cls c) eqn:Hc.
    + destruct (RegExp.star cls k t) as [[m' ms'] |] eqn:Hstar.
      * intros H. injection H as <- <-.
        destruct (IH m' ms' eq_refl) as (rest & -> & Hall & Hk).
        exists rest. repeat split; auto.
      * destruct (k (c :: t)) eqn:Hk; simpl; [| discriminate].
        intros H. injection H as <- <-. exists (c :: t). auto.
    + destruct (k (c :: t)) eqn:Hk; simpl; [| discriminate].
      intros H. injection H as <- <-. exists (c :: t). auto.
Qed.

(** The star succeeds as soon as the continuation succeeds after some
    run of the class. *)
Lemma star_complete (cls : N -> bool) (k : JSString -> option (list JSString))
      (run rest : JSString) :
  Forall (fun c => cls c = true) run ->
  k rest <> None ->
  RegExp.star cls k (run ++ rest) <> None.
Proof.
  induction 1 as [|c run Hc _ IH]; intros Hk.
  - simpl. destruct rest as [|c t]; simpl.
    + destruct (k []); [discriminate | contradiction].
    + destruct (cls c).
      * destruct (RegExp.star cls k t) as [[m ms] |]; [discriminate |].
        destruct (k (c :: t)); [discriminate | contradiction].
      * destruct (k (c :: t)); [discriminate | contradiction].
  - simpl. rewrite Hc. specialize (IH Hk).
    destruct (RegExp.star cls k (run ++ rest)) as [[m ms] |];
      [discriminate | contradiction].
Qed.

(** The star takes the whole run when the run cannot be extended and
    the continuation succeeds after it. *)
Lemma star_whole_run (cls : N -> bool) (k : JSString -> option (list JSString))
      (run rest : JSString) (ms : list JSString) :
  Forall (fun c => cls c = true) run ->
  match rest with [] => True | c :: _ => cls c = false end ->
  k rest = Some ms ->
  RegExp.star cls k (run ++ rest) = Some (run, ms).
Proof.
  intros Hrun Hstop Hk. induction Hrun as [|c run Hc _ IH]; simpl.
  - destruct rest as [|c t]; simpl; [rewrite Hk; reflexivity |].
    rewrite Hstop, Hk. reflexivity.
  - rewrite Hc, IH. reflexivity.
Qed.

(** The delimiter-following pattern matches white space followed by a
    delimiter. *)
Lemma delimiterFollowing_matches (delims : list N) (space : JSString) (d : N)
      (rest : JSString) :
  Forall (fun c => RegExp.isSpace c = true) space ->
  In d delims ->
  RegExp.matchHere (delimiterFollowingPattern delims) (space ++ d :: rest)
  <> None.
Proof.
  intros Hspace Hd. unfold delimiterFollowingPattern. cbn [RegExp.matchHere].
  pose proof (star_complete RegExp.isSpace
                (fun t => match t with
                          | [] => None
                          | c :: t0 =>
                              if RegExp.inClass delims c
                              then option_map (cons [c]) (Some [])
                              else None
                          end)
                space (d :: rest) Hspace) as Hstar.
  cbn beta iota in Hstar.
  apply inClass_In in Hd. rewrite Hd in Hstar.
  specialize (Hstar ltac:(discriminate)).
  destruct (RegExp.star RegExp.isSpace _ (space ++ d :: rest)) as [[m ms] |];
    [discriminate | contradiction].
Qed.

(** X10.  The delimiter-following test holds exactly when the text
    after the single-quote is white space, possibly none, followed by
    one of the delimiters. *)
Theorem delimiterFollowing_exactly (delims : list N) (following : JSString) :
  RegExp.testAnchored (delimiterFollowingPattern delims) following = true
  <-> exists space d rest,
        following = space ++ d :: rest
        /\ Forall (fun c => RegExp.isSpace c = true) space
        /\ In d delims.
Proof.
  unfold RegExp.testAnchored. split.
  - unfold delimiterFollowingPattern. cbn [RegExp.matchHere].
    destruct (RegExp.star RegExp.isSpace _ following) as [[m ms] |] eqn:Hstar;
      simpl; [intros _ | discriminate].
    apply star_sound in Hstar as (rest & -> & Hspace & Hk).
    destruct rest as [|d rest]; [discriminate |].
    destruct (RegExp.inClass delims d) eqn:Hd; [| discriminate].
    exists m, d, rest. repeat split; auto. apply inClass_In. exact Hd.
  - intros (space & d & rest & -> & Hspace & Hd).
    pose proof (delimiterFollowing_matches delims space d rest Hspace Hd).
    destruct (RegExp.matchHere _ _); [reflexivity | contradiction].
Qed.

(** The search pattern, at one position: a run without single-quote,
    a single-quote, and the delimiter-following pattern. *)
Lemma findValids_here (delims : list N) (s : JSString) :
  RegExp.matchHere (findValidsPattern delims) s
  = option_map (fun r => fst r :: snd r)
      (RegExp.star RegExp.notApostrophe
         (fun t => match t with
                   | [] => None
                   | c :: t' =>
                       if RegExp.isApostrophe c
                       then option_map (cons [c])
                              (RegExp.matchHere (delimiterFollowingPattern delims) t')
                       else None
                   end)
         s).
Proof. reflexivity. Qed.

Lemma exec_sound (p : RegExp.pattern) (s : JSString) (ms : list JSString) :
  RegExp.exec p s = Some ms ->
  exists before after, s = before ++ after /\ RegExp.matchHere p after = Some ms.
Proof.
  induction s as [|c t IH]; simpl.
  - destruct (RegExp.matchHere p []) eqn:H; [| discriminate].
    intros E. injection E as <-. exists [], []. auto.
  - destruct (RegExp.matchHere p (c :: t)) eqn:H.
    + intros E. injection E as <-. exists [], (c :: t). auto.
    + intros E. destruct (IH E) as (before & after & -> & Hm).
      exists (c :: before), after. auto.
Qed.

Lemma notApostrophe_Forall (s : JSString) :
  Forall (fun c => RegExp.notApostrophe c = true) s <-> ~ In cu_apostrophe s.
Proof.
  unfold RegExp.notApostrophe. rewrite Forall_forall. split.
  - intros H Hin. specialize (H _ Hin). rewrite N.eqb_refl in H. discriminate.
  - intros H c Hc. destruct (N.eqb_spec c cu_apostrophe); [subst; tauto | reflexivity].
Qed.

(** X11.  The text that the next-valid-quote search captures, when it
    is not empty, is a run of the text from the single-quote on that
    holds no single-quote and is followed there by a single-quote,
    white space, possibly none, and one of the delimiters. *)
Theorem capturingGroup_found (misformattedJSON : JSString) (delims : list N)
        (stringIndex : Z) :
  truthy (regexpCapturingGroup misformattedJSON delims stringIndex) = true ->
  exists before space d rest,
    sliceFrom misformattedJSON stringIndex
    = before ++ regexpCapturingGroup misformattedJSON delims stringIndex
      ++ APOSTROPHE ++ space ++ d :: rest
    /\ ~ In cu_apostrophe (regexpCapturingGroup misformattedJSON delims stringIndex)
    /\ Forall (fun c => RegExp.isSpace c = true) space
    /\ In d delims.
Proof.
  unfold regexpCapturingGroup.
  destruct (RegExp.exec (findValidsPattern delims)
              (sliceFrom misformattedJSON stringIndex)) as [ms |] eqn:Hexec;
    [| discriminate].
  apply exec_sound in Hexec as (before & after & Hsplit & Hmatch).
  rewrite findValids_here in Hmatch.
  destruct (RegExp.star RegExp.notApostrophe _ after) as [[group tail] |] eqn:Hstar;
    [| discriminate].
  simpl in Hmatch. injection Hmatch as <-. simpl. intros _.
  apply star_sound in Hstar as (rest1 & -> & Hgroup & Hk).
  destruct rest1 as [|q rest1]; [discriminate |].
  destruct (RegExp.isApostrophe q) eqn:Hq; [| discriminate].
  apply N.eqb_eq in Hq. subst q.
  destruct (RegExp.matchHere (delimiterFollowingPattern delims) rest1)
    as [ms2 |] eqn:Hfollow; [| discriminate].
  unfold delimiterFollowingPattern in Hfollow. cbn [RegExp.matchHere] in Hfollow.
  destruct (RegExp.star RegExp.isSpace _ rest1) as [[space ms3] |] eqn:Hstar2;
    [| discriminate].
  apply star_sound in Hstar2 as (rest2 & -> & Hspace & Hk2).
  destruct rest2 as [|d rest2]; [discriminate |].
  destruct (RegExp.inClass delims d) eqn:Hd; [| discriminate].
  exists before, space, d, rest2. split; [exact Hsplit |].
  split; [apply notApostrophe_Forall; exact Hgroup |].
  split; [exact Hspace | apply inClass_In; exact Hd].
Qed.

(** On [json1] at its second single-quote, in an array: the captured
    text is the name up to the third single-quote. *)
Lemma capturingGroup_found_witness :
  exists before space d rest,
    sliceFrom json1 7
    = before ++ str "Rielly" ++ APOSTROPHE ++ space ++ d :: rest
    /\ ~ In cu_apostrophe (str "Rielly")
    /\ Forall (fun c => RegExp.isSpace c = true) space
    /\ In d [cu_comma; cu_rbracket].
Proof.
  exact (capturingGroup_found json1 [cu_comma; cu_rbracket] 7 eq_refl).
Defined.

(** ** Auto-fill, when the next single-quote is the valid one *)

Lemma skipn_succ_tl {A : Type} (n : nat) (l : list A) :
  skipn (S n) l = tl (skipn n l).
Proof.
  revert l. induction n as [|n IH]; intros [|x l]; try reflexivity.
  rewrite skipn_cons. rewrite IH. reflexivity.
Qed.

Lemma sliceFrom_next (s : JSString) (i : Z) :
  0 <= i -> sliceFrom s (i + 1) = tl (sliceFrom s i).
Proof.
  intros Hi. unfold sliceFrom.
  replace (Z.to_nat (i + 1)) with (S (Z.to_nat i)) by lia.
  apply skipn_succ_tl.
Qed.

(** The search from a single-quote whose own delimiter-following test
    fails, when the text goes on with a run without single-quote, a
    single-quote, white space and a delimiter: it captures that run. *)
Lemma exec_findValids_next (delims : list N) (group space : JSString) (d : N)
      (rest : JSString) :
  RegExp.testAnchored (delimiterFollowingPattern delims)
                      (group ++ APOSTROPHE ++ space ++ d :: rest) = false ->
  ~ In cu_apostrophe group ->
  Forall (fun c => RegExp.isSpace c = true) space ->
  In d delims ->
  exists ms,
    RegExp.exec (findValidsPattern delims)
                (APOSTROPHE ++ group ++ APOSTROPHE ++ space ++ d :: rest)
    = Some (group :: ms).
Proof.
  intros Htest Hgroup Hspace Hd.
  unfold RegExp.testAnchored in Htest.
  destruct (RegExp.matchHere (delimiterFollowingPattern delims)
              (group ++ APOSTROPHE ++ space ++ d :: rest)) eqn:Hhere;
    [discriminate |].
  pose proof (delimiterFollowing_matches delims space d rest Hspace Hd) as Hnext.
  destruct (RegExp.matchHere (delimiterFollowingPattern delims)
              (space ++ d :: rest)) as [ms2 |] eqn:Hms2; [| contradiction].
  exists ([cu_apostrophe] :: ms2).
  change (APOSTROPHE ++ group ++ APOSTROPHE ++ space ++ d :: rest)
    with (cu_apostrophe :: (group ++ APOSTROPHE ++ space ++ d :: rest)).
  cbn [RegExp.exec].
  assert (Hfirst : RegExp.matchHere (findValidsPattern delims)
                     (cu_apostrophe
                      :: (group ++ APOSTROPHE ++ space ++ d :: rest)) = None).
  { rewrite findValids_here. cbn [RegExp.star].
    change (RegExp.notApostrophe cu_apostrophe) with false. cbv iota.
    change (RegExp.isApostrophe cu_apostrophe) with true. cbv iota.
    rewrite Hhere. reflexivity. }
  rewrite Hfirst.
  assert (Hsecond : RegExp.matchHere (findValidsPattern delims)
                      (group ++ APOSTROPHE ++ space ++ d :: rest)
                    = Some (group :: [cu_apostrophe] :: ms2)).
  { rewrite findValids_here.
    rewrite (star_whole_run RegExp.notApostrophe _ group
               (APOSTROPHE ++ space ++ d :: rest) ([cu_apostrophe] :: ms2)).
    - reflexivity.
    - apply notApostrophe_Forall. exact Hgroup.
    - reflexivity.
    - change (APOSTROPHE ++ space ++ d :: rest)
        with (cu_apostrophe :: (space ++ d :: rest)).
      cbv beta iota.
      change (RegExp.isApostrophe cu_apostrophe) with true. cbv iota.
      rewrite Hms2. reflexivity. }
  destruct (group ++ APOSTROPHE ++ space ++ d :: rest) eqn:Htext.
  - destruct group; discriminate.
  - cbn [RegExp.exec]. rewrite Hsecond. reflexivity.
Qed.

Lemma codePoints_length_units (s : JSString) :
  codePoints s = units s -> List.length (codePoints s) = List.length s.
Proof. intros ->. unfold units. apply length_map. Qed.

(** X12.  Auto-fill as intended.  A guess inside a string, not escaped,
    meets without hooks a single-quote whose delimiter-following test
    fails, and the text goes on with a non-empty run without
    single-quote nor surrogate pair, a single-quote, white space and a
    delimiter of the guess's context.  Then the guess takes the
    single-quote, the run and a closing double quote at once, pushes the
    guess that closes the string at the first single-quote (and, under
    [TRY_HARD], the one that keeps it), and after the characters of the
    run and of the second single-quote it is the same guess, outside the
    string and with nothing left to skip. *)
Theorem autofill_next_quote
        (misformattedJSON : JSString) (TRY_HARD : bool)
        (characterIndex stringIndex : Z) (g : Guess)
        (group space : JSString) (d : N) (rest : JSString) :
  0 <= stringIndex ->
  aufoFilled g = 0 ->
  isString g = true ->
  isEscaped g = false ->
  sliceFrom misformattedJSON stringIndex
  = APOSTROPHE ++ group ++ APOSTROPHE ++ space ++ d :: rest ->
  group <> [] ->
  ~ In cu_apostrophe group ->
  codePoints group = units group ->
  Forall (fun c => RegExp.isSpace c = true) space ->
  In d (possibleDelimiters (isJSONType g) (isObjectField g)) ->
  RegExp.testAnchored
    (delimiterFollowingPattern
       (possibleDelimiters (isJSONType g) (isObjectField g)))
    (group ++ APOSTROPHE ++ space ++ d :: rest) = false ->
  stepGuess misformattedJSON None None TRY_HARD
            characterIndex stringIndex APOSTROPHE g
  = (set_isString false
       (set_aufoFilled (JS.length group + 1)
          (append (APOSTROPHE ++ group ++ QUOTE) g)),
     set_string (string g ++ QUOTE) (set_isString false g)
     :: (if TRY_HARD
         then [set_string (string g ++ APOSTROPHE) (set_isString true g)]
         else []))
  /\ follow misformattedJSON None None TRY_HARD
            (APOSTROPHE :: codePoints group ++ [APOSTROPHE])
            characterIndex stringIndex g
     = set_isString false (append (APOSTROPHE ++ group ++ QUOTE) g).
Proof.
  intros Hsi Hfill Hstr Hesc Hslice Hne Hgroup Hunits Hspace Hd Htest.
  destruct (exec_findValids_next _ group space d rest Htest Hgroup Hspace Hd)
    as (ms & Hexec).
  assert (Hcapture : regexpCapturingGroup misformattedJSON
                       (possibleDelimiters (isJSONType g) (isObjectField g))
                       stringIndex = group).
  { unfold regexpCapturingGroup. rewrite Hslice, Hexec. reflexivity. }
  assert (Hstep : stepGuess misformattedJSON None None TRY_HARD
                    characterIndex stringIndex APOSTROPHE g
                  = (set_isString false
                       (set_aufoFilled (JS.length group + 1)
                          (append (APOSTROPHE ++ group ++ QUOTE) g)),
                     set_string (string g ++ QUOTE) (set_isString false g)
                     :: (if TRY_HARD
                         then [set_string (string g ++ APOSTROPHE)
                                          (set_isString true g)]
                         else []))).
  { rewrite (stepGuess_apostrophe _ _ _ _ _ _ _ Hfill).
    unfold stepApostrophe, callBruteForce, defaultHeuristics.
    cbv zeta. rewrite Hstr, Hesc, Hcapture.
    destruct group; [contradiction | reflexivity]. }
  split; [exact Hstep |].
  cbn [follow]. rewrite Hstep. cbn [fst].
  rewrite follow_skips.
  - rewrite length_app, (codePoints_length_units group Hunits).
    unfold JS.length, set_aufoFilled, set_isString, append, set_string.
    cbn [List.length string isString isEscaped isArray isObject isObjectField
         isObjectValue isJSONType aufoFilled].
    rewrite Hfill. f_equal. lia.
  - rewrite length_app, (codePoints_length_units group Hunits).
    unfold JS.length, set_aufoFilled, set_isString.
    cbn [List.length aufoFilled]. lia.
Qed.

(** On [json1] at its second single-quote, for the guess that the scan
    has there. *)
Lemma autofill_next_quote_witness :
  follow json1 None None false
         (APOSTROPHE :: codePoints (str "Rielly") ++ [APOSTROPHE]) 7 7
         (mkGuess (str "[" ++ QUOTE ++ str "Bob O") true false 1 0 false false
                  (Some array) 0)
  = mkGuess (str "[" ++ QUOTE ++ str "Bob O'Rielly" ++ QUOTE) false false 1 0
            false false (Some array) 0.
Proof.
  refine (proj2 (autofill_next_quote json1 false 7 7
                   (mkGuess (str "[" ++ QUOTE ++ str "Bob O") true false 1 0
                            false false (Some array) 0)
                   (str "Rielly") [] cu_rbracket [] _ eq_refl eq_refl eq_refl
                   eq_refl _ _ eq_refl _ _ eq_refl)).
  - lia.
  - discriminate.
  - intros H. vm_compute in H. intuition discriminate.
  - constructor.
  - simpl. auto.
Defined.

(** ** A string opened outside any array or object *)

Lemma exec_findValids_no_delimiter (s : JSString) :
  RegExp.exec (findValidsPattern []) s = None.
Proof.
  destruct (RegExp.exec (findValidsPattern []) s) as [ms |] eqn:Hexec;
    [| reflexivity].
  apply exec_sound in Hexec as (before & after & _ & Hmatch).
  rewrite findValids_here in Hmatch.
  destruct (RegExp.star RegExp.notApostrophe _ after) as [[group tail] |] eqn:Hstar;
    [| discriminate].
  apply star_sound in Hstar as (rest1 & _ & _ & Hk).
  destruct rest1 as [|q rest1]; [discriminate |].
  destruct (RegExp.isApostrophe q); [| discriminate].
  unfold delimiterFollowingPattern in Hk. cbn [RegExp.matchHere] in Hk.
  destruct (RegExp.star RegExp.isSpace _ rest1) as [[space ms3] |] eqn:Hstar2;
    [| discriminate].
  apply star_sound in Hstar2 as (rest2 & _ & _ & Hk2).
  destruct rest2 as [|d rest2]; discriminate.
Qed.

Section TopLevelString.

Variable misformattedJSON : JSString.

(** Inside a string, with no tag and outside an object field, without
    hooks nor [TRY_HARD]: every character, the single-quote included, is
    appended as it is, nothing is pushed, and the guess stays so. *)
Lemma stepGuess_topLevelString (characterIndex stringIndex : Z)
      (character : JSString) (g : Guess) :
  aufoFilled g = 0 -> isString g = true ->
  isJSONType g = None -> isObjectField g = false ->
  exists g',
    stepGuess misformattedJSON None None false
              characterIndex stringIndex character g = (g', [])
    /\ string g' = string g ++ character
    /\ aufoFilled g' = 0 /\ isString g' = true
    /\ isJSONType g' = None /\ isObjectField g' = false.
Proof.
  intros Hfill Hstr Htag Hfield. unfold stepGuess. rewrite Hfill. simpl.
  destruct (JS.eqb character APOSTROPHE) eqn:Hc; simpl.
  - apply eqb_eq in Hc. subst character.
    unfold stepApostrophe, callBruteForce, defaultHeuristics. cbv zeta.
    rewrite Hstr, Htag, Hfield.
    destruct (isEscaped g).
    + eexists. split; [reflexivity |]. simpl. auto.
    + unfold possibleDelimiters, regexpCapturingGroup. simpl isType. simpl orb.
      cbv iota. rewrite exec_findValids_no_delimiter. simpl.
      eexists. split; [reflexivity |]. simpl. auto.
  - exists (stepOther character g). split; [reflexivity |].
    unfold stepOther. rewrite Hstr.
    destruct (JS.eqb character [cu_backslash]); simpl; auto.
Qed.

Lemma scanFrom_topLevelString (characters : list JSString) :
  forall (characterIndex stringIndex : Z) (g : Guess),
    aufoFilled g = 0 -> isString g = true ->
    isJSONType g = None -> isObjectField g = false ->
    exists g',
      scanFrom misformattedJSON None None false
               characters characterIndex stringIndex [g] = [g']
      /\ string g' = string g ++ concat characters
      /\ isString g' = true.
Proof.
  induction characters as [|c cs IH]; intros ci si g Hfill Hstr Htag Hfield.
  - exists g. simpl. rewrite app_nil_r. auto.
  - destruct (stepGuess_topLevelString ci si c g Hfill Hstr Htag Hfield)
      as (g1 & Hstep & Hstring & Hf1 & Hs1 & Ht1 & Ho1).
    destruct (IH (ci + 1) (si + JS.length c) g1 Hf1 Hs1 Ht1 Ho1)
      as (g' & Hrun & Hstring' & Hs').
    exists g'. split; [| split; [| exact Hs']].
    + cbn [scanFrom]. unfold stepCharacter. cbn [forEachGuess].
      rewrite Hstep. exact Hrun.
    + rewrite Hstring', Hstring. simpl. rewrite app_assoc. reflexivity.
Qed.

End TopLevelString.

(** X13.  A text that starts with a single-quote: without hooks nor
    [TRY_HARD], the scan ends with one guess, still inside the string,
    whose string is the text with its first character replaced by a
    double quote and every other single-quote kept.  A string opened
    outside any array or object is never closed by the default
    heuristics. *)
Theorem topLevel_string_never_closes (rest : JSString) :
  exists g,
    scan (APOSTROPHE ++ rest) None None false = [g]
    /\ string g = QUOTE ++ rest
    /\ isString g = true.
Proof.
  destruct (scanFrom_topLevelString (APOSTROPHE ++ rest) (codePoints rest)
              1 1 (set_isString true (append QUOTE initialGuess))
              eq_refl eq_refl eq_refl eq_refl)
    as (g & Hrun & Hstring & Hstr).
  exists g. split; [| split; [| exact Hstr]].
  - unfold scan.
    assert (Hcp : codePoints (APOSTROPHE ++ rest) = APOSTROPHE :: codePoints rest)
      by (destruct rest; reflexivity).
    rewrite Hcp. exact Hrun.
  - rewrite Hstring, codePoints_concat. reflexivity.
Qed.

(** ** The older version *)

Section LegacyWalk.

Variable originalString : JSString.
Variable bruteForce : option Legacy.BruteForce.
Variable euristic : option Legacy.Euristic.

(** A call only adds to the shared array. *)
Lemma walk_appends (characters : list JSString) :
  forall (UTFStringIndex UTFStringCodePoint : Z) (currentGuess : JSString)
         (isString : bool) (guesses : list JSString),
    Legacy.walk originalString bruteForce euristic characters
                UTFStringIndex UTFStringCodePoint currentGuess isString guesses
    = guesses
      ++ Legacy.walk originalString bruteForce euristic characters
                     UTFStringIndex UTFStringCodePoint currentGuess isString [].
Proof.
  induction characters as [|c cs IH]; intros i cp cur isStr guesses;
    [reflexivity |].
  cbn [Legacy.walk]. cbv zeta.
  destruct (negb (JS.eqb c [cu_apostrophe])); [apply IH |].
  destruct (Legacy.callBruteForce bruteForce _).
  - rewrite (IH _ _ _ _ (Legacy.walk _ _ _ cs _ _ _ _ guesses)).
    rewrite (IH _ _ _ _ guesses).
    rewrite (IH _ _ _ _ (Legacy.walk _ _ _ cs _ _ _ _ [])).
    rewrite app_assoc. reflexivity.
  - destruct euristic as [f|]; [apply IH |].
    destruct isStr; [| apply IH].
    destruct (Legacy.likelyEnd _); apply IH.
Qed.


End LegacyWalk.


(** Without heuristic hook every guess is as long as what the call
    started from plus the characters it read. *)
Lemma walk_length (originalString : JSString)
      (bruteForce : option Legacy.BruteForce) (characters : list JSString) :
  forall (UTFStringIndex UTFStringCodePoint : Z) (currentGuess : JSString)
         (isString : bool) (guess : JSString),
    In guess (Legacy.walk originalString bruteForce None characters
                          UTFStringIndex UTFStringCodePoint currentGuess
                          isString []) ->
    List.length guess
    = (List.length currentGuess + List.length (concat characters))%nat.
Proof.
  induction characters as [|c cs IH]; intros i cp cur isStr guess.
  - simpl. intros [<- | []]. lia.
  - cbn [Legacy.walk]. cbv zeta.
    destruct (negb (JS.eqb c [cu_apostrophe])) eqn:Hc.
    { intros H. apply IH in H. rewrite H. simpl. rewrite !length_app. lia. }
    apply negb_false_iff, eqb_eq in Hc. subst c.
    assert (Hone : forall x,
               List.length guess
               = (List.length (cur ++ [x]) + List.length (concat cs))%nat ->
               List.length guess
               = (List.length cur
                  + List.length (concat ([cu_apostrophe] :: cs)))%nat).
    { intros x H. rewrite H. simpl. rewrite !length_app. simpl. lia. }
    destruct (Legacy.callBruteForce bruteForce _).
    + rewrite walk_appends. intros H. apply in_app_or in H as [H | H];
        apply IH in H; eapply Hone; exact H.
    + destruct isStr.
      * destruct (Legacy.likelyEnd _); intros H; apply IH in H;
          eapply Hone; exact H.
      * intros H; apply IH in H; eapply Hone; exact H.
Qed.



(** X15.  In the older version without heuristic hook, every guess has
    exactly as many code units as the text: each single-quote is kept or
    replaced by one double quote, and nothing else is written. *)
Theorem legacy_guesses_keep_length
        (misformattedJSON : JSString) (bruteForce : option Legacy.BruteForce)
        (guess : JSString) :
  In guess (legacyGuesses misformattedJSON bruteForce None) ->
  List.length guess = List.length misformattedJSON.
Proof.
  intros Hin. unfold legacyGuesses in Hin.
  apply (walk_length misformattedJSON bruteForce
           (codePoints misformattedJSON)) in Hin.
  rewrite codePoints_concat in Hin. exact Hin.
Qed.

Lemma legacy_guesses_keep_length_witness :
  List.length json1_repaired = List.length json1.
Proof.
  apply (legacy_guesses_keep_length json1 None json1_repaired).
  vm_compute. left. reflexivity.
Defined.



(** ** The two versions under brute force *)

Lemma legacy_walk_alwaysForks
      (originalString : JSString) (f : Legacy.BruteForce)
      (euristic : option Legacy.Euristic) (characters : list JSString) :
  legacyAlwaysForks f ->
  forall (UTFStringIndex UTFStringCodePoint : Z) (currentGuess : JSString)
         (isString : bool) (v : JSString),
    In v (Legacy.walk originalString (Some f) euristic characters
                      UTFStringIndex UTFStringCodePoint currentGuess isString [])
    <-> exists w, In w (variants characters) /\ v = currentGuess ++ w.
Proof.
  intros Hforks.
  induction characters as [|c cs IH]; intros i cp cur isStr v.
  - simpl. split.
    + intros [<- | []]. exists []. rewrite app_nil_r. auto.
    + intros (w & [<- | []] & ->). rewrite app_nil_r. auto.
  - cbn [Legacy.walk variants]. cbv zeta.
    change [cu_apostrophe] with APOSTROPHE.
    destruct (JS.eqb c APOSTROPHE) eqn:Hc; cbn [negb].
    + apply eqb_eq in Hc. subst c.
      unfold Legacy.callBruteForce. rewrite Hforks.
      rewrite walk_appends, in_app_iff, !IH. split.
      * intros [(w & Hw & ->) | (w & Hw & ->)].
        -- exists (APOSTROPHE ++ w). split.
           ++ apply in_or_app. right. apply in_map. exact Hw.
           ++ rewrite app_assoc. reflexivity.
        -- exists (QUOTE ++ w). split.
           ++ apply in_or_app. left. apply in_map. exact Hw.
           ++ rewrite app_assoc. reflexivity.
      * intros (w & Hw & ->). apply in_app_or in Hw as [Hw | Hw];
          apply in_map_iff in Hw as (w' & <- & Hw').
        -- right. exists w'. rewrite app_assoc. auto.
        -- left. exists w'. rewrite app_assoc. auto.
    + rewrite IH. split.
      * intros (w & Hw & ->). exists (c ++ w). split.
        -- apply in_map. exact Hw.
        -- rewrite app_assoc. reflexivity.
      * intros (w & Hw & ->). apply in_map_iff in Hw as (w' & <- & Hw').
        exists w'. rewrite app_assoc. auto.
Qed.

Lemma scan_alwaysForks_strings
      (misformattedJSON : JSString) (f : BruteForce)
      (heuristic : option Heuristic) (TRY_HARD : bool) (v : JSString) :
  alwaysForks f ->
  In v (map string (scan misformattedJSON (Some f) heuristic TRY_HARD))
  <-> In v (variants (codePoints misformattedJSON)).
Proof.
  intros Hforks. unfold scan.
  rewrite (scanFrom_alwaysForks misformattedJSON f heuristic TRY_HARD Hforks
             (codePoints misformattedJSON) 0 0 [initialGuess]
             ltac:(repeat constructor) v).
  split.
  - intros (g & w & [<- | []] & Hw & ->). exact Hw.
  - intros Hw. exists initialGuess, v. simpl. auto.
Qed.

(** X17.  In the older version, a brute-force hook that returns true at
    every single-quote makes the guesses exactly the texts obtained by
    keeping or replacing each single-quote, whatever the heuristic
    hook. *)
Theorem legacy_bruteForce_enumerates
        (misformattedJSON : JSString) (f : Legacy.BruteForce)
        (euristic : option Legacy.Euristic) (v : JSString) :
  legacyAlwaysForks f ->
  In v (legacyGuesses misformattedJSON (Some f) euristic)
  <-> In v (variants (codePoints misformattedJSON)).
Proof.
  intros Hforks. unfold legacyGuesses.
  rewrite (legacy_walk_alwaysForks misformattedJSON f euristic
             (codePoints misformattedJSON) Hforks 0 0 [] false v).
  split.
  - intros (w & Hw & ->). exact Hw.
  - intros Hw. exists v. auto.
Qed.

Lemma legacy_bruteForce_enumerates_witness :
  In json1_repaired (legacyGuesses json1 (Some (fun _ => true)) None)
  <-> In json1_repaired (variants (codePoints json1)).
Proof.
  exact (legacy_bruteForce_enumerates json1 (fun _ => true) None json1_repaired
           (fun _ => eq_refl)).
Defined.

(** X18.  Under brute-force hooks that return true at every
    single-quote, the two versions find the same successes: a string is
    returned by the four-argument [preParse] exactly when it is a guess
    of the older version that parses. *)
Theorem versions_agree_under_bruteForce
        (misformattedJSON : JSString) (f : BruteForce)
        (heuristic : option Heuristic) (TRY_HARD : bool)
        (f' : Legacy.BruteForce) (euristic : option Legacy.Euristic)
        (r : JSString) :
  alwaysForks f ->
  legacyAlwaysForks f' ->
  In r (preParse misformattedJSON (Some f) heuristic TRY_HARD)
  <-> In r (filter JSON.parses
                   (legacyGuesses misformattedJSON (Some f') euristic)).
Proof.
  intros Hforks Hforks'.
  assert (Hlegacy : In r (legacyGuesses misformattedJSON (Some f') euristic)
                    <-> In r (variants (codePoints misformattedJSON))).
  { unfold legacyGuesses.
    rewrite (legacy_walk_alwaysForks misformattedJSON f' euristic
               (codePoints misformattedJSON) Hforks' 0 0 [] false r).
    split.
    - intros (w & Hw & ->). exact Hw.
    - intros Hw. exists r. auto. }
  unfold preParse.
  rewrite In_collect, filter_In, Hlegacy.
  rewrite <- (scan_alwaysForks_strings misformattedJSON f heuristic TRY_HARD r
                Hforks).
  rewrite in_map_iff. split.
  - intros (g & Hg & Hr & Hp). split; [| exact Hp].
    exists g. auto.
  - intros [(g & Hr & Hg) Hp]. exists g. auto.
Qed.

Lemma versions_agree_under_bruteForce_witness :
  In json1_repaired (preParse json1 (Some alwaysBruteForce) None false)
  <-> In json1_repaired
         (filter JSON.parses (legacyGuesses json1 (Some (fun _ => true)) None)).
Proof.
  exact (versions_agree_under_bruteForce json1 alwaysBruteForce None false
           (fun _ => true) None json1_repaired (fun _ => eq_refl)
           (fun _ => eq_refl)).
Defined.

(** ** A plain single-quoted string *)

Lemma append_append (a b : JSString) (g : Guess) :
  append b (append a g) = append (a ++ b) g.
Proof. unfold append, set_string. simpl. rewrite app_assoc. reflexivity. Qed.

(** The search from a single-quote that white space and a delimiter
    follow: it matches at the single-quote itself and captures
    nothing. *)
Lemma exec_findValids_here (delims : list N) (space : JSString) (d : N)
      (rest : JSString) :
  Forall (fun c => RegExp.isSpace c = true) space ->
  In d delims ->
  exists ms,
    RegExp.exec (findValidsPattern delims) (APOSTROPHE ++ space ++ d :: rest)
    = Some ([] :: ms).
Proof.
  intros Hspace Hd.
  pose proof (delimiterFollowing_matches delims space d rest Hspace Hd) as Hnext.
  destruct (RegExp.matchHere (delimiterFollowingPattern delims)
              (space ++ d :: rest)) as [ms2 |] eqn:Hms2; [| contradiction].
  exists ([cu_apostrophe] :: ms2).
  change (APOSTROPHE ++ space ++ d :: rest)
    with (cu_apostrophe :: (space ++ d :: rest)).
  cbn [RegExp.exec]. rewrite findValids_here. cbn [RegExp.star].
  change (RegExp.notApostrophe cu_apostrophe) with false. cbv iota.
  change (RegExp.isApostrophe cu_apostrophe) with true. cbv iota.
  rewrite Hms2. reflexivity.
Qed.

Section PlainString.

Variable misformattedJSON : JSString.
Variable bruteForce : option BruteForce.
Variable heuristic : option Heuristic.
Variable TRY_HARD : bool.

(** Inside a string, characters that are neither the single-quote nor
    the reverse solidus are appended and nothing else happens. *)
Lemma scanFrom_inString (characters : list JSString) :
  Forall (fun c => JS.eqb c APOSTROPHE = false) characters ->
  Forall (fun c => JS.eqb c [cu_backslash] = false) characters ->
  forall (characterIndex stringIndex : Z) (g : Guess),
    aufoFilled g = 0 ->
    isString g = true ->
    scanFrom misformattedJSON bruteForce heuristic TRY_HARD
             characters characterIndex stringIndex [g]
    = [append (concat characters) g].
Proof.
  induction 1 as [|c cs Hc _ IH]; intros Hback ci si g Hfill Hstr.
  - simpl. unfold append. rewrite app_nil_r. destruct g. reflexivity.
  - inversion Hback as [|? ? Hb Hbs]; subst.
    cbn [scanFrom]. unfold stepCharacter. cbn [forEachGuess].
    rewrite (stepGuess_other misformattedJSON bruteForce heuristic TRY_HARD
               ci si c g Hfill Hc).
    cbn [app].
    assert (Hstep : stepOther c g = append c g)
      by (unfold stepOther; rewrite Hstr, Hb; reflexivity).
    rewrite Hstep, (IH Hbs) by assumption.
    rewrite append_append. reflexivity.
Qed.

End PlainString.

(** X19.  The plain case of the default heuristics.  A guess outside a
    string meets, without hooks nor [TRY_HARD], a single-quote, a text
    without single-quote nor reverse solidus, and a second single-quote
    that white space and a delimiter of the guess's context follow in
    the text.  Then it stays alone, its string gains the text between
    double quotes, and it is outside a string again with every other
    flag as before. *)
Theorem plain_string_is_requoted
        (misformattedJSON : JSString) (characterIndex stringIndex : Z)
        (g : Guess) (body space : JSString) (d : N) (rest : JSString) :
  0 <= stringIndex ->
  aufoFilled g = 0 ->
  isString g = false ->
  isEscaped g = false ->
  ~ In cu_apostrophe body ->
  ~ In cu_backslash body ->
  sliceFrom misformattedJSON (stringIndex + 1 + JS.length body)
  = APOSTROPHE ++ space ++ d :: rest ->
  Forall (fun c => RegExp.isSpace c = true) space ->
  In d (possibleDelimiters (isJSONType g) (isObjectField g)) ->
  scanFrom misformattedJSON None None false
           (APOSTROPHE :: codePoints body ++ [APOSTROPHE])
           characterIndex stringIndex [g]
  = [append (QUOTE ++ body ++ QUOTE) g].
Proof.
  intros Hsi Hfill Hstr Hesc Hquote Hback Hslice Hspace Hd.
  cbn [scanFrom]. unfold stepCharacter. cbn [forEachGuess].
  assert (Hopen : stepGuess misformattedJSON None None false
                    characterIndex stringIndex APOSTROPHE g
                  = (set_isString true (append QUOTE g), [])).
  { rewrite (stepGuess_apostrophe _ _ _ _ _ _ _ Hfill).
    unfold stepApostrophe, callBruteForce, defaultHeuristics.
    rewrite Hstr. reflexivity. }
  rewrite Hopen. cbn [app].
  rewrite scanFrom_app.
  rewrite (scanFrom_inString misformattedJSON None None false (codePoints body)
             (codePoints_without cu_apostrophe body Hquote)
             (codePoints_without cu_backslash body Hback)
             _ _ (set_isString true (append QUOTE g)) Hfill eq_refl).
  rewrite codePoints_concat.
  cbn [scanFrom]. unfold stepCharacter. cbn [forEachGuess].
  replace (stringIndex + JS.length APOSTROPHE + JS.length body)
    with (stringIndex + 1 + JS.length body)
    by (unfold JS.length; simpl; lia).
  set (si := stringIndex + 1 + JS.length body) in *.
  set (g2 := append body (set_isString true (append QUOTE g))).
  assert (Hsi' : 0 <= si) by (unfold si, JS.length; lia).
  destruct (exec_findValids_here _ space d rest Hspace Hd) as (ms & Hexec).
  assert (Hclose : forall ci,
             stepGuess misformattedJSON None None false ci si APOSTROPHE g2
             = (set_isString false (append QUOTE g2), [])).
  { intros ci. rewrite stepGuess_apostrophe by exact Hfill.
    unfold stepApostrophe, callBruteForce, defaultHeuristics. cbv zeta.
    change (isString g2) with true.
    change (isEscaped g2) with (isEscaped g). rewrite Hesc.
    change (isJSONType g2) with (isJSONType g).
    change (isObjectField g2) with (isObjectField g).
    unfold regexpCapturingGroup. rewrite Hslice, Hexec. cbn [truthy].
    rewrite (sliceFrom_next _ _ Hsi'), Hslice. cbn [tl app APOSTROPHE].
    assert (Htest : RegExp.testAnchored
                      (delimiterFollowingPattern
                         (possibleDelimiters (isJSONType g) (isObjectField g)))
                      (space ++ d :: rest) = true).
    { unfold RegExp.testAnchored.
      pose proof (delimiterFollowing_matches _ space d rest Hspace Hd).
      destruct (RegExp.matchHere _ _); [reflexivity | contradiction]. }
    rewrite Htest.
    destruct (possibleDelimiters (isJSONType g) (isObjectField g));
      [destruct Hd | reflexivity]. }
  rewrite Hclose. cbn [app]. f_equal.
  unfold g2, append, set_isString, set_string. simpl.
  rewrite Hstr, Hesc. f_equal.
  rewrite <- !app_assoc. reflexivity.
Qed.

(** On the array of the one string a, for the guess that follows the
    opening bracket. *)
Lemma plain_string_is_requoted_witness :
  scanFrom (str "['a']") None None false
           (APOSTROPHE :: codePoints (str "a") ++ [APOSTROPHE]) 1 1
           [mkGuess (str "[") false false 1 0 false false (Some array) 0]
  = [mkGuess (str "[" ++ QUOTE ++ str "a" ++ QUOTE) false false 1 0 false false
             (Some array) 0].
Proof.
  refine (plain_string_is_requoted (str "['a']") 1 1
            (mkGuess (str "[") false false 1 0 false false (Some array) 0)
            (str "a") [] cu_rbracket [] _ eq_refl eq_refl eq_refl _ _ eq_refl
            _ _).
  - lia.
  - intros H. vm_compute in H. intuition discriminate.
  - intros H. vm_compute in H. intuition discriminate.
  - constructor.
  - simpl. auto.
Defined.

(** ** One pair of single-quotes in the older version *)







(** ** Hooks that decline *)

Section Declining.

Variable misformattedJSON : JSString.
Variable bruteForce : option BruteForce.
Variable heuristic : option Heuristic.
Variable TRY_HARD : bool.
Hypothesis Hdeclines : declines bruteForce.
Hypothesis Hnothing : writesNothing heuristic.

Lemma stepGuess_declining (characterIndex stringIndex : Z)
      (character : JSString) (g : Guess) :
  stepGuess misformattedJSON bruteForce heuristic TRY_HARD
            characterIndex stringIndex character g
  = stepGuess misformattedJSON None None TRY_HARD
              characterIndex stringIndex character g.
Proof.
  unfold stepGuess.
  destruct (nonzero (aufoFilled g)); [reflexivity |].
  destruct (negb (JS.eqb character APOSTROPHE)); [reflexivity |].
  unfold stepApostrophe. cbv zeta.
  assert (Hbrute : callBruteForce bruteForce
                     (positionAt misformattedJSON characterIndex stringIndex g)
                   = false).
  { unfold callBruteForce. destruct bruteForce as [f|]; [apply Hdeclines |].
    reflexivity. }
  rewrite Hbrute. cbn [callBruteForce].
  destruct heuristic as [h|]; [| reflexivity].
  simpl in Hnothing. rewrite Hnothing. reflexivity.
Qed.

Lemma forEachGuess_declining (characterIndex stringIndex : Z)
      (character : JSString) (guesses : list Guess) :
  forEachGuess misformattedJSON bruteForce heuristic TRY_HARD
               characterIndex stringIndex character guesses
  = forEachGuess misformattedJSON None None TRY_HARD
                 characterIndex stringIndex character guesses.
Proof.
  induction guesses as [|g gs IH]; [reflexivity |].
  cbn [forEachGuess]. rewrite IH, stepGuess_declining. reflexivity.
Qed.

Lemma scanFrom_declining (characters : list JSString) :
  forall (characterIndex stringIndex : Z) (guesses : list Guess),
    scanFrom misformattedJSON bruteForce heuristic TRY_HARD
             characters characterIndex stringIndex guesses
    = scanFrom misformattedJSON None None TRY_HARD
               characters characterIndex stringIndex guesses.
Proof.
  induction characters as [|c cs IH]; intros ci si guesses; [reflexivity |].
  cbn [scanFrom]. unfold stepCharacter.
  rewrite forEachGuess_declining. apply IH.
Qed.

End Declining.

(** X21.  A brute-force hook that never returns true and a heuristic
    hook that writes nothing and returns a falsy value change nothing:
    the guesses and the result are those of the call without hooks. *)
Theorem declining_hooks_are_no_hooks
        (misformattedJSON : JSString) (bruteForce : option BruteForce)
        (heuristic : option Heuristic) (TRY_HARD : bool) :
  declines bruteForce ->
  writesNothing heuristic ->
  scan misformattedJSON bruteForce heuristic TRY_HARD
  = scan misformattedJSON None None TRY_HARD
  /\ preParse misformattedJSON bruteForce heuristic TRY_HARD
     = preParse misformattedJSON None None TRY_HARD.
Proof.
  intros Hdeclines Hnothing.
  assert (Hscan : scan misformattedJSON bruteForce heuristic TRY_HARD
                  = scan misformattedJSON None None TRY_HARD)
    by (apply scanFrom_declining; assumption).
  split; [exact Hscan |].
  unfold preParse. rewrite Hscan. reflexivity.
Qed.

Lemma declining_hooks_are_no_hooks_witness :
  preParse json1 (Some (fun _ => false)) (Some voidHeuristic) false
  = preParse json1 None None false.
Proof.
  exact (proj2 (declining_hooks_are_no_hooks json1 (Some (fun _ => false))
                  (Some voidHeuristic) false (fun _ => eq_refl)
                  (fun _ => eq_refl))).
Defined.

(** X22.  With a brute-force hook that never returns true (or none) and
    a heuristic hook that always returns a truthy value, the scan never
    forks: there is one guess at the end, whatever the hook writes and
    whatever [TRY_HARD]. *)
Theorem truthy_heuristic_never_forks
        (misformattedJSON : JSString) (bruteForce : option BruteForce)
        (h : Heuristic) (TRY_HARD : bool) :
  declines bruteForce ->
  alwaysTruthy h ->
  List.length (scan misformattedJSON bruteForce (Some h) TRY_HARD) = 1%nat.
Proof.
  intros Hdeclines Htruthy.
  assert (Hpush : forall ci si c g,
             snd (stepGuess misformattedJSON bruteForce (Some h) TRY_HARD
                            ci si c g) = []).
  { intros ci si c g. unfold stepGuess.
    destruct (nonzero (aufoFilled g)); [reflexivity |].
    destruct (negb (JS.eqb c APOSTROPHE)); [reflexivity |].
    unfold stepApostrophe. cbv zeta.
    assert (Hbrute : callBruteForce bruteForce
                       (positionAt misformattedJSON ci si g) = false).
    { unfold callBruteForce. destruct bruteForce as [f|]; [apply Hdeclines |].
      reflexivity. }
    rewrite Hbrute.
    specialize (Htruthy (positionAt misformattedJSON ci si g)).
    destruct (h _) as [g' result]. simpl in Htruthy. subst result.
    reflexivity. }
  assert (Hstep : forall ci si c guesses,
             List.length (stepCharacter misformattedJSON bruteForce (Some h)
                                        TRY_HARD ci si c guesses)
             = List.length guesses).
  { intros ci si c guesses. unfold stepCharacter.
    pose proof (forEachGuess_stepped misformattedJSON bruteForce (Some h)
                  TRY_HARD ci si c guesses) as Hstepped.
    pose proof (forEachGuess_pushed_length misformattedJSON bruteForce (Some h)
                  TRY_HARD 0 ci si c guesses) as Hpushed.
    destruct (forEachGuess misformattedJSON bruteForce (Some h) TRY_HARD
                ci si c guesses) as [stepped pushed].
    simpl in *. rewrite length_app, Hstepped, length_map.
    assert (List.length pushed <= 0)%nat.
    { apply Hpushed. intros g. rewrite Hpush. simpl. lia. }
    lia. }
  assert (Hscan : forall characters ci si guesses,
             List.length (scanFrom misformattedJSON bruteForce (Some h) TRY_HARD
                                   characters ci si guesses)
             = List.length guesses).
  { induction characters as [|c cs IH]; intros ci si guesses; [reflexivity |].
    cbn [scanFrom]. rewrite IH. apply Hstep. }
  unfold scan. rewrite Hscan. reflexivity.
Qed.

Lemma truthy_heuristic_never_forks_witness :
  List.length (scan json1 None (Some keepHeuristic) true) = 1%nat.
Proof.
  exact (truthy_heuristic_never_forks json1 None keepHeuristic true I
           (fun _ => eq_refl)).
Defined.

(** ** An escaped single-quote *)

(** X23.  Inside a string, without hooks, a reverse solidus followed by
    a single-quote are both kept as content: the guess stays inside the
    string, the escape is over, and nothing is pushed, even under
    [TRY_HARD] and whatever follows in the text.  Two reverse solidi in a
    row, with any hooks, leave the guess not escaped. *)
Theorem escaped_quote_is_content
        (misformattedJSON : JSString) (bruteForce : option BruteForce)
        (heuristic : option Heuristic) (TRY_HARD : bool)
        (characterIndex stringIndex : Z) (g : Guess) :
  aufoFilled g = 0 ->
  isString g = true ->
  isEscaped g = false ->
  scanFrom misformattedJSON None None TRY_HARD
           [[cu_backslash]; APOSTROPHE] characterIndex stringIndex [g]
  = [append ([cu_backslash] ++ APOSTROPHE) g]
  /\ scanFrom misformattedJSON bruteForce heuristic TRY_HARD
              [[cu_backslash]; [cu_backslash]] characterIndex stringIndex [g]
     = [append [cu_backslash; cu_backslash] g].
Proof.
  intros Hfill Hstr Hesc.
  assert (Hfirst : forall bf h,
             stepGuess misformattedJSON bf h TRY_HARD characterIndex stringIndex
                       [cu_backslash] g
             = (set_isEscaped true (append [cu_backslash] g), [])).
  { intros bf h. rewrite stepGuess_other by (assumption || reflexivity).
    unfold stepOther. rewrite Hstr, Hesc. reflexivity. }
  split.
  - cbn [scanFrom]. unfold stepCharacter. cbn [forEachGuess].
    rewrite Hfirst. cbn [app forEachGuess].
    rewrite stepGuess_apostrophe by exact Hfill.
    unfold stepApostrophe, callBruteForce, defaultHeuristics. cbv zeta.
    change (isString (set_isEscaped true (append [cu_backslash] g)))
      with (isString g).
    rewrite Hstr. cbn [isEscaped set_isEscaped]. cbn [app]. f_equal.
    unfold append, set_string, set_isEscaped. simpl.
    rewrite Hstr, Hesc, <- app_assoc. reflexivity.
  - cbn [scanFrom]. unfold stepCharacter. cbn [forEachGuess].
    rewrite Hfirst. cbn [app forEachGuess].
    rewrite stepGuess_other by (assumption || reflexivity).
    cbn [app]. f_equal.
    unfold stepOther, append, set_string, set_isEscaped. simpl.
    rewrite Hstr, Hesc, <- app_assoc. reflexivity.
Qed.

Lemma escaped_quote_is_content_witness :
  scanFrom [] None None true [[cu_backslash]; APOSTROPHE] 0 0 [openGuess]
  = [append ([cu_backslash] ++ APOSTROPHE) openGuess].
Proof.
  exact (proj1 (escaped_quote_is_content [] None None true 0 0 openGuess
                  eq_refl eq_refl eq_refl)).
Defined.

(** ** The examples of the source *)

(** X24.  The calls at the end of the two files.  In the first file:
    answers 1, 2, 4, 5 and 7 are one string each (for 5, the text with
    every single-quote replaced); answer 3, under [TRY_HARD], is the same
    string twice, reached by two guesses; answer 6, by brute force, is
    three strings.  In the older file the one call returns nothing. *)
Theorem source_examples :
  preParse json1 None None false = [strq "[`Bob O'Rielly`]"]
  /\ preParse json2 None None true
     = [strq "[`Mr. O'McDonald, height 13',1\``]"]
  /\ preParse json3 None None true
     = [strq "[{`fullName`:`Bob O'Rielly`,`height`:`13',5\``}]";
        strq "[{`fullName`:`Bob O'Rielly`,`height`:`13',5\``}]"]
  /\ preParse json4 None None false
     = [strq "[[`''''''''''`],[[`''''''`],`[]`,`{}`,`,`,`:`],`''''''''''''`]"]
  /\ preParse json5 None None false = [requoteAll json5]
  /\ preParse json6 (Some alwaysBruteForce) None false
     = [strq "[{`fullName`:`Rob O'Rielly`,`height`:`70.5\``}]";
        strq "[{`fullName':'Rob O'Rielly','height`:`70.5\``}]";
        strq "[{`fullName`:`Rob O'Rielly','height':'70.5\``}]"]
  /\ preParse json7 None None true
     = [strq "[{`fullName`:`Dob MacRielly`,`height`:`13',5\``}]"]
  /\ Legacy.preParse legacy_json3 None None = Legacy.Undefined.
Proof.
  repeat split; vm_compute; reflexivity.
Qed.
